(** * ip.py: domestic IPv4 list -> router address groups and ACL rule

    A shallow embedding of [src/ip.py] and the properties its
    specification states about it.

    Python [str] values are sequences of Unicode code points, so a string
    is a [list N]; the library calls the script relies on ([str.strip],
    [str.splitlines], [str.split], [str.join], [re.match],
    [datetime + timedelta], [strftime]) are modelled on code points as
    CPython documents them.  The file system is a finite map from file
    names to file contents. *)

From Stdlib Require Import ZArith NArith Lia List String Ascii Bool.
From Stdlib Require Import DecimalString DecimalNat.
From stdpp Require Import base list gmap.

Local Open Scope N_scope.

(** ** Strings *)

Module Str.

Abbreviation char := N (only parsing).
Abbreviation str := (list N) (only parsing).

(** The code point of an ASCII character, and the string of an ASCII
    literal. *)
Definition ch (a : ascii) : char := N_of_ascii a.

Definition lit (s : string) : str := ch <$> list_ascii_of_string s.

(** [c.isspace()], the characters [str.strip()] removes. *)
Definition isspace (c : char) : bool :=
  ((9 <=? c) && (c <=? 13)) || ((28 <=? c) && (c <=? 32))
  || (c =? 133) || (c =? 160) || (c =? 5760)
  || ((8192 <=? c) && (c <=? 8202))
  || (c =? 8232) || (c =? 8233) || (c =? 8239) || (c =? 8287)
  || (c =? 12288).

(** The line boundaries of [str.splitlines()]. *)
Definition islinebreak (c : char) : bool :=
  ((10 <=? c) && (c <=? 13)) || ((28 <=? c) && (c <=? 30))
  || (c =? 133) || (c =? 8232) || (c =? 8233).

Fixpoint lstrip (s : str) : str :=
  match s with
  | c :: s' => if isspace c then lstrip s' else s
  | [] => []
  end.

Definition rstrip (s : str) : str := rev (lstrip (rev s)).

(** [s.strip()] *)
Definition strip (s : str) : str := rstrip (lstrip s).

(** [s.startswith(p)] *)
Fixpoint startswith (p s : str) : bool :=
  match p, s with
  | [], _ => true
  | a :: p', b :: s' => (a =? b) && startswith p' s'
  | _ :: _, [] => false
  end.

(** [s.splitlines()]: [cur] is the line being read, [after_cr] says that
    the previous character was a carriage return, whose following line
    feed belongs to the same boundary. *)
Fixpoint splitlines_go (after_cr : bool) (cur : str) (s : str) : list str :=
  match s with
  | [] => match cur with [] => [] | _ => [cur] end
  | c :: rest =>
      if after_cr && (c =? 10) then splitlines_go false cur rest
      else if islinebreak c then cur :: splitlines_go (c =? 13) [] rest
      else splitlines_go false (cur ++ [c]) rest
  end.

Definition splitlines (s : str) : list str := splitlines_go false [] s.

(** [s.split(sep)] for a one-character separator. *)
Fixpoint split (sep : char) (s : str) : list str :=
  match s with
  | [] => [[]]
  | c :: s' =>
      if c =? sep then [] :: split sep s'
      else match split sep s' with
           | w :: ws => (c :: w) :: ws
           | [] => [[c]]
           end
  end.

(** [sep.join(l)] *)
Fixpoint join (sep : str) (l : list str) : str :=
  match l with
  | [] => []
  | [w] => w
  | w :: ws => w ++ sep ++ join sep ws
  end.

(** [f"{n}"] for a non-negative integer. *)
Definition dec (n : nat) : str := lit (NilEmpty.string_of_uint (Nat.to_uint n)).

(** [enumerate(l, start)] *)
Fixpoint enumerate {A} (start : nat) (l : list A) : list (nat * A) :=
  match l with
  | [] => []
  | x :: l' => (start, x) :: enumerate (S start) l'
  end.

End Str.
Import Str.

(** ** Regular expressions

    The fragment of Python's [re] syntax that [cidr_pattern] is written
    in, matched the way the [re] module matches: a backtracking search
    that tries the alternatives of [|] from left to right and an optional
    item before its absence. *)

Module Re.

Inductive class_item :=
| One (c : char)
| Range (lo hi : char).

Inductive re :=
| Eps
| Chr (c : char)
| Class (items : list class_item)
| Seq (a b : re)
| Alt (a b : re)
| Opt (a : re)
| Bol
| Eol.

Definition in_item (x : char) (it : class_item) : bool :=
  match it with
  | One c => x =? c
  | Range lo hi => (lo <=? x) && (x <=? hi)
  end.

Definition in_class (items : list class_item) (x : char) : bool :=
  existsb (in_item x) items.

(** [r{n}] *)
Fixpoint rep (n : nat) (r : re) : re :=
  match n with
  | O => Eps
  | S n' => Seq r (rep n' r)
  end.

(** [mt r i s k]: [r] matches a prefix of [s], which starts at position
    [i] of the subject, and [k] accepts what follows.  [^] holds at
    position 0 only; [$] holds at the end of the subject and just before
    a line feed that ends it. *)
Fixpoint mt (r : re) (i : nat) (s : str) (k : nat → str → bool) : bool :=
  match r with
  | Eps => k i s
  | Chr c =>
      match s with
      | x :: s' => (x =? c) && k (S i) s'
      | [] => false
      end
  | Class items =>
      match s with
      | x :: s' => in_class items x && k (S i) s'
      | [] => false
      end
  | Seq a b => mt a i s (λ i' s', mt b i' s' k)
  | Alt a b => mt a i s k || mt b i s k
  | Opt a => mt a i s k || k i s
  | Bol => Nat.eqb i 0 && k i s
  | Eol =>
      match s with
      | [] => k i s
      | [c] => (c =? 10) && k i s
      | _ => false
      end
  end.

(** [bool(p.match(s))] *)
Definition re_match (p : re) (s : str) : bool := mt p 0%nat s (λ _ _, true).

(** The language of a pattern without anchors. *)
Fixpoint lang (r : re) (w : str) : Prop :=
  match r with
  | Eps => w = []
  | Chr c => w = [c]
  | Class items => ∃ x, w = [x] ∧ in_class items x = true
  | Seq a b => ∃ u v, w = u ++ v ∧ lang a u ∧ lang b v
  | Alt a b => lang a w ∨ lang b w
  | Opt a => lang a w ∨ w = []
  | Bol | Eol => False
  end.

Fixpoint anchor_free (r : re) : bool :=
  match r with
  | Eps | Chr _ | Class _ => true
  | Seq a b | Alt a b => anchor_free a && anchor_free b
  | Opt a => anchor_free a
  | Bol | Eol => false
  end.

End Re.
Import Re.

Infix "-:-" := Seq (at level 60, right associativity).
Infix "-|-" := Alt (at level 65, right associativity).

(** ** The validator: [fetch_domestic_cidrs] *)

(** The characters the pattern names. *)
Definition c0 : char := ch "0".
Definition c1 : char := ch "1".
Definition c2 : char := ch "2".
Definition c3 : char := ch "3".
Definition c4 : char := ch "4".
Definition c5 : char := ch "5".
Definition c9 : char := ch "9".

(** [25[0-5]|2[0-4][0-9]|[01]?[0-9][0-9]?] *)
Definition octet_re : re :=
  (Chr c2 -:- Chr c5 -:- Class [Range c0 c5])
  -|- (Chr c2 -:- Class [Range c0 c4] -:- Class [Range c0 c9])
  -|- (Opt (Class [One c0; One c1]) -:- Class [Range c0 c9]
       -:- Opt (Class [Range c0 c9])).

(** [[0-9]|[12][0-9]|3[0-2]] *)
Definition mask_re : re :=
  Class [Range c0 c9]
  -|- (Class [One c1; One c2] -:- Class [Range c0 c9])
  -|- (Chr c3 -:- Class [Range c0 c2]).

(** The pattern between its anchors:
    [(?:(?:octet)\.){3}(?:octet)/(mask)]; a capturing group matches as
    a plain one. *)
Definition cidr_body : re :=
  rep 3 (octet_re -:- Chr (ch ".")) -:- octet_re -:- Chr (ch "/") -:- mask_re.

Definition cidr_pattern : re := Bol -:- cidr_body -:- Eol.

(** What the run of the loop over the lines leaves behind: the list
    [cidrs] and, on the console, one "skipped invalid line" report per
    rejected line, with its number and its trimmed text. *)
Record scan := Scan {
  cidrs : list str;
  skipped : list (nat * str)
}.

(** The body of the loop, lines 28 to 34. *)
Definition scan_line (acc : scan) (numbered : nat * str) : scan :=
  let '(line_num, raw) := numbered in
  let line := strip raw in
  if bool_decide (line = []) || startswith (lit "#") line then acc
  else if re_match cidr_pattern line
       then Scan (cidrs acc ++ [line]) (skipped acc)
       else Scan (cidrs acc) (skipped acc ++ [(line_num, line)]).

(** Lines 24 to 37: the scan of the response text. *)
Definition scan_text (text : str) : scan :=
  fold_left scan_line (enumerate 1 (splitlines text)) (Scan [] []).

(** [fetch_domestic_cidrs(url)], as a function of what the request
    yields: [None] when [requests.get] or [raise_for_status] raises,
    the text of the response otherwise. *)
Definition fetch_domestic_cidrs (response : option str) : list str :=
  match response with
  | Some text => cidrs (scan_text text)
  | None => []
  end.

Definition nl : str := [10].

(** ** The run date: [get_data_date]

    [datetime] values with the arithmetic of CPython's [datetime]
    module: a date is converted to its proleptic Gregorian ordinal, the
    [timedelta] is added there, and the sum is converted back. *)

Module Datetime.

Local Open Scope Z_scope.

Record datetime := DateTime {
  year : Z; month : Z; day : Z;
  hour : Z; minute : Z; second : Z; microsecond : Z
}.

(** A duration, normalised as [timedelta] keeps it:
    [0 <= seconds < 86400] and [0 <= microseconds < 1000000]. *)
Record timedelta := TimeDelta {
  days : Z; seconds : Z; microseconds : Z
}.

Definition MAXORDINAL : Z := 3652059.

Definition is_leap (y : Z) : bool :=
  (y mod 4 =? 0) && (negb (y mod 100 =? 0) || (y mod 400 =? 0)).

Definition DAYS_IN_MONTH : list Z :=
  [-1; 31; 28; 31; 30; 31; 30; 31; 31; 30; 31; 30; 31].

Definition DAYS_BEFORE_MONTH : list Z :=
  [-1; 0; 31; 59; 90; 120; 151; 181; 212; 243; 273; 304; 334].

Definition table (t : list Z) (i : Z) : Z := nth (Z.to_nat i) t 0.

Definition days_before_year (y : Z) : Z :=
  let y := y - 1 in y * 365 + y / 4 - y / 100 + y / 400.

Definition days_in_month (y m : Z) : Z :=
  if (m =? 2) && is_leap y then 29 else table DAYS_IN_MONTH m.

Definition days_before_month (y m : Z) : Z :=
  table DAYS_BEFORE_MONTH m + (if (2 <? m) && is_leap y then 1 else 0).

Definition ymd2ord (y m d : Z) : Z :=
  days_before_year y + days_before_month y m + d.

Definition DI400Y : Z := 146097.
Definition DI100Y : Z := 36524.
Definition DI4Y : Z := 1461.

Definition ord2ymd (n : Z) : Z * Z * Z :=
  let n := n - 1 in
  let n400 := n / DI400Y in
  let n := n mod DI400Y in
  let y := n400 * 400 + 1 in
  let n100 := n / DI100Y in
  let n := n mod DI100Y in
  let n4 := n / DI4Y in
  let n := n mod DI4Y in
  let n1 := n / 365 in
  let n := n mod 365 in
  let y := y + n100 * 100 + n4 * 4 + n1 in
  if (n1 =? 4) || (n100 =? 4) then (y - 1, 12, 31)
  else
    let leapyear := (n1 =? 3) && (negb (n4 =? 24) || (n100 =? 3)) in
    let m := Z.shiftr (n + 50) 5 in
    let preceding :=
      table DAYS_BEFORE_MONTH m + (if (2 <? m) && leapyear then 1 else 0) in
    if n <? preceding
    then
      let m := m - 1 in
      let preceding :=
        preceding
        - (table DAYS_IN_MONTH m + (if (m =? 2) && leapyear then 1 else 0)) in
      (y, m, n - preceding + 1)
    else (y, m, n - preceding + 1).

(** The month and the day of the [n]-th day of a year, counted from 0:
    the second half of [ord2ymd], on its own. *)
Definition month_day (leapyear : bool) (n : Z) : Z * Z :=
  let m := Z.shiftr (n + 50) 5 in
  let preceding :=
    table DAYS_BEFORE_MONTH m + (if (2 <? m) && leapyear then 1 else 0) in
  if n <? preceding
  then
    let m := m - 1 in
    let preceding :=
      preceding
      - (table DAYS_IN_MONTH m + (if (m =? 2) && leapyear then 1 else 0)) in
    (m, n - preceding + 1)
  else (m, n - preceding + 1).

(** [timedelta(days, hours=, minutes=, seconds=, microseconds=)] *)
Definition mk_timedelta (d h mi s us : Z) : timedelta :=
  let total := (d * 86400 + h * 3600 + mi * 60 + s) * 1000000 + us in
  TimeDelta (total / 86400000000)
            ((total / 1000000) mod 86400)
            (total mod 1000000).

Definition timedelta_add (a b : timedelta) : timedelta :=
  mk_timedelta (days a + days b) 0 0 (seconds a + seconds b)
               (microseconds a + microseconds b).

Definition toordinal (t : datetime) : Z := ymd2ord (year t) (month t) (day t).

(** [t + delta]; [None] stands for the [OverflowError] raised when the
    sum leaves the years 1 to 9999. *)
Definition datetime_add (t : datetime) (delta : timedelta) : option datetime :=
  let delta :=
    timedelta_add
      (mk_timedelta (toordinal t) (hour t) (minute t) (second t) (microsecond t))
      delta in
  let h := seconds delta / 3600 in
  let rem := seconds delta mod 3600 in
  let mi := rem / 60 in
  let s := rem mod 60 in
  if (0 <? days delta) && (days delta <=? MAXORDINAL)
  then let '(y, m, d) := ord2ymd (days delta) in
       Some (DateTime y m d h mi s (microseconds delta))
  else None.

Definition digit_chr (d : Z) : char := (48 + Z.to_N d)%N.

(** [t.strftime("%Y%m%d")]: the year on four digits, the month and the
    day on two, as the library reference gives [%Y], [%m] and [%d] for
    the years 1 to 9999. *)
Definition strftime_Ymd (t : datetime) : str :=
  [digit_chr (year t / 1000); digit_chr (year t / 100 mod 10);
   digit_chr (year t / 10 mod 10); digit_chr (year t mod 10);
   digit_chr (month t / 10); digit_chr (month t mod 10);
   digit_chr (day t / 10); digit_chr (day t mod 10)].

(** [get_data_date()], as a function of what [datetime.utcnow()]
    reads. *)
Definition get_data_date (utcnow : datetime) : option str :=
  strftime_Ymd <$> datetime_add utcnow (mk_timedelta 1 0 0 0 0).

End Datetime.
Import Datetime.

(** ** The file system *)

Abbreviation FS := (gmap (list N) (list N)) (only parsing).

(** [os.path.exists(path)] *)
Definition path_exists (path : str) (fs : FS) : bool :=
  bool_decide (is_Some (fs !! path)).

(** [os.remove(path)] *)
Definition remove (path : str) (fs : FS) : FS := delete path fs.

(** [with open(path, 'w') as f: ...], where the block writes [text]. *)
Definition write_file (path : str) (text : str) (fs : FS) : FS :=
  <[path := text]> fs.

(** ** The partitioner: [generate_ip_groups] *)

(** The variables of the loop and the text written to [f] so far. *)
Record writer := Writer {
  num_line : nat;
  num_id : nat;
  addr_pool : list str;
  f : str
}.

(** The record of one group, lines 70 and 80. *)
Definition group_line (num_id num_line : nat) (addr_pool : list str) : str :=
  lit "id=" ++ dec num_id ++ lit " comment= type=0 group_name="
  ++ [22269; 20869] ++ lit "IP-" ++ dec num_line
  ++ lit " addr_pool=" ++ join (lit ",") addr_pool.

(** The body of the loop, lines 64 to 76. *)
Definition add_cidr (w : writer) (cidr : str) : writer :=
  let addr_pool := addr_pool w ++ [cidr] in
  if (length addr_pool <? 1000)%nat
  then Writer (num_line w) (num_id w) addr_pool (f w)
  else Writer (num_line w + 1) (num_id w + 1) []
              (f w ++ group_line (num_id w) (num_line w) addr_pool ++ nl).

(** The last, partial group, lines 79 to 82. *)
Definition write_rest (w : writer) : writer :=
  match addr_pool w with
  | [] => w
  | _ => Writer (num_line w + 1) (num_id w) (addr_pool w)
                (f w ++ group_line (num_id w) (num_line w) (addr_pool w) ++ nl)
  end.

Definition generate_ip_groups (cidrs : list str) (data_date : str) (fs : FS)
  : FS * (str * nat) :=
  let group_filename := lit "domestic_ikuai_ipgroup-" ++ data_date ++ lit ".txt" in
  let fs := if path_exists group_filename fs then remove group_filename fs else fs in
  let w := write_rest (fold_left add_cidr cidrs (Writer 1 60 [] [])) in
  let total_groups := (num_line w - 1)%nat in
  (write_file group_filename (f w) fs, (group_filename, total_groups)).

(** ** The ACL rule: [generate_acl_rules] *)

Definition generate_acl_rules (num_groups : nat) (data_date : str) (fs : FS)
  : FS * str :=
  let acl_filename := lit "domestic_ikuai_acl-" ++ data_date ++ lit ".txt" in
  let fs := if path_exists acl_filename fs then remove acl_filename fs else fs in
  let src_addrs :=
    (λ i, [22269; 20869] ++ lit "IP-" ++ dec i) <$> seq 1 num_groups in
  let src_addr_str := join (lit ",") src_addrs in
  let acl_rule :=
    lit "id=60 enabled=yes comment=" ++ [20801; 35768; 22269; 20869]
    ++ lit "IP" ++ [35775; 38382] ++ lit " action=accept dir=forward ctdir=1 "
    ++ lit "iinterface=any ointerface=any src_addr=" ++ src_addr_str
    ++ lit " dst_addr= "
    ++ lit "src6_addr= dst6_addr= src6_mode=0 dst6_mode=0 src6_suffix= dst6_suffix= "
    ++ lit "src6_mac= dst6_mac= protocol=any src_port= dst_port= week=1234567 "
    ++ lit "time=00:00-23:59 ip_type=4" in
  (write_file acl_filename (acl_rule ++ nl) fs, acl_filename).

(** ** The run: [main] *)

Inductive outcome :=
| NoCidrs
| NoGroups
| Completed (group_file acl_file : str) (n_cidrs num_groups : nat).

(** [main()], as a function of the clock, of what the request yields and
    of the files present; [None] is an exception that leaves [main]. *)
Definition main (utcnow : datetime) (response : option str) (fs : FS)
  : option (FS * outcome) :=
  data_date ← get_data_date utcnow;
  let cidrs := fetch_domestic_cidrs response in
  match cidrs with
  | [] => Some (fs, NoCidrs)
  | _ =>
      let '(fs, (group_file, num_groups)) :=
        generate_ip_groups cidrs data_date fs in
      if (num_groups =? 0)%nat then Some (fs, NoGroups)
      else
        let '(fs, acl_file) := generate_acl_rules num_groups data_date fs in
        Some (fs, Completed group_file acl_file (length cidrs) num_groups)
  end.


(** The text of the group file once [generate_ip_groups] has run. *)
Definition group_file (cidrs : list str) (data_date : str) (fs : FS) : str :=
  let '(fs', (group_filename, _)) := generate_ip_groups cidrs data_date fs in
  default [] (fs' !! group_filename).

(** The text of the ACL file once [generate_acl_rules] has run. *)
Definition acl_file (num_groups : nat) (data_date : str) (fs : FS) : str :=
  let '(fs', acl_filename) := generate_acl_rules num_groups data_date fs in
  default [] (fs' !! acl_filename).

(** ** The grammar of the specification

    Written from the specification's words: [A.B.C.D/M], an octet being
    [25[0-5]], [2[0-4][0-9]] or one to three digits of value at most 255,
    and a mask being [[0-9]], [[12][0-9]] or [3[0-2]]. *)

Module Grammar.

Definition is_digit (c : char) : Prop := 48 ≤ c ≤ 57.

(** The number a string of digits writes. *)
Definition value (s : str) : N := fold_left (λ acc c, 10 * acc + (c - 48)) s 0.

Definition octet (o : str) : Prop :=
  (∃ c, o = [c2; c5; c] ∧ c0 ≤ c ≤ c5)
  ∨ (∃ b c, o = [c2; b; c] ∧ c0 ≤ b ≤ c4 ∧ is_digit c)
  ∨ ((1 ≤ length o ≤ 3)%nat ∧ Forall is_digit o ∧ value o ≤ 255).

Definition mask (m : str) : Prop :=
  (∃ a, m = [a] ∧ is_digit a)
  ∨ (∃ a b, m = [a; b] ∧ (a = c1 ∨ a = c2) ∧ is_digit b)
  ∨ (∃ b, m = [c3; b] ∧ c0 ≤ b ≤ c2).

Definition cidr (s : str) : Prop :=
  ∃ A B C D M,
    s = A ++ lit "." ++ B ++ lit "." ++ C ++ lit "." ++ D ++ lit "/" ++ M
    ∧ octet A ∧ octet B ∧ octet C ∧ octet D ∧ mask M.

(** The sublist of the elements that satisfy [P], in order. *)
Inductive selects {A} (P : A → Prop) : list A → list A → Prop :=
| selects_nil : selects P [] []
| selects_keep x l l' : P x → selects P l l' → selects P (x :: l) (x :: l')
| selects_drop x l l' : ¬ P x → selects P l l' → selects P (x :: l) l'.

End Grammar.
Import Grammar.

(** A trimmed line that is neither blank nor a comment. *)
Definition candidate (line : str) : Prop :=
  line ≠ [] ∧ startswith (lit "#") line = false.

Global Instance candidate_dec line : Decision (candidate line).
Proof. unfold candidate. apply _. Defined.

(** ** Reading the written files back

    A record is a line of space-separated [key=value] fields. *)

Fixpoint lookup_field (key : str) (fields : list str) : option str :=
  match fields with
  | [] => None
  | t :: ts =>
      if startswith (key ++ lit "=") t
      then Some (drop (length key + 1) t)
      else lookup_field key ts
  end.

(** The value of the field [key] in [line]. *)
Definition field (key : string) (line : str) : option str :=
  lookup_field (lit key) (split (ch " ") line).

(** The members a record lists in its [addr_pool] field. *)
Definition members (line : str) : list str :=
  match field "addr_pool" line with
  | None | Some [] => []
  | Some pool => split (ch ",") pool
  end.

(** The [addr_pool] fields of the records of a group file. *)
Definition pool_fields (text : str) : list str :=
  (λ line, default [] (field "addr_pool" line)) <$> splitlines text.

(** The sizes of the groups of [n] addresses: 1000 each, then the
    rest. *)
Definition chunk_sizes (n : nat) : list nat :=
  replicate (n / 1000) 1000%nat
  ++ (if (n mod 1000 =? 0)%nat then [] else [(n mod 1000)%nat]).

(** ** The calendar of the specification

    The Gregorian calendar in words: the lengths of the months, the leap
    years, and the day that follows a day. *)

Module Calendar.

Local Open Scope Z_scope.

Definition leap_year (y : Z) : Prop :=
  (y mod 4 = 0 ∧ y mod 100 ≠ 0) ∨ y mod 400 = 0.

Global Instance leap_year_dec y : Decision (leap_year y).
Proof. unfold leap_year. apply _. Defined.

Definition month_length (y m : Z) : Z :=
  match m with
  | 1 | 3 | 5 | 7 | 8 | 10 | 12 => 31
  | 4 | 6 | 9 | 11 => 30
  | 2 => if decide (leap_year y) then 29 else 28
  | _ => 0
  end.

(** A date of the years 1 to 9999. *)
Definition valid_date (y m d : Z) : Prop :=
  1 ≤ y ≤ 9999 ∧ 1 ≤ m ≤ 12 ∧ 1 ≤ d ≤ month_length y m.

(** The day after [y]-[m]-[d]. *)
Definition tomorrow (y m d : Z) : Z * Z * Z :=
  if decide (d < month_length y m) then (y, m, d + 1)
  else if decide (m < 12) then (y, m + 1, 1)
  else (y + 1, 1, 1).




(** A reading of the clock. *)
Definition valid_datetime (t : datetime) : Prop :=
  valid_date (year t) (month t) (day t)
  ∧ 0 ≤ hour t < 24 ∧ 0 ≤ minute t < 60 ∧ 0 ≤ second t < 60
  ∧ 0 ≤ microsecond t < 1000000.

End Calendar.
Import Calendar.

(** ** Definitions for the proofs *)

(** What the loop of [scan_text] computes. *)
Definition accepted (line : str) : Prop :=
  candidate line ∧ re_match cidr_pattern line = true.

Definition rejected (numbered : nat * str) : Prop :=
  candidate numbered.2 ∧ re_match cidr_pattern numbered.2 = false.

Global Instance accepted_dec line : Decision (accepted line).
Proof. unfold accepted. apply _. Defined.

Global Instance rejected_dec p : Decision (rejected p).
Proof. unfold rejected. apply _. Defined.

Definition unmatched (line : str) : Prop :=
  candidate line ∧ re_match cidr_pattern line = false.

Global Instance unmatched_dec line : Decision (unmatched line).
Proof. unfold unmatched. apply _. Defined.

(** The characters of a validated CIDR. *)
Definition cidr_char (c : N) : Prop := is_digit c ∨ c = 46 ∨ c = 47.

(** The text of the records of [pools], numbered from [id] and [n]. *)
Fixpoint render (id n : nat) (pools : list (list (list N))) : list N :=
  match pools with
  | [] => []
  | p :: ps => group_line id n p ++ nl ++ render (S id) (S n) ps
  end.

Definition start : writer := Writer 1 60 [] [].

(** The groups [generate_ip_groups] writes: all hold 1000 members but
    the last, which holds the rest. *)
Definition shape (pools : list (list (list N))) : Prop :=
  Forall (λ p, (1 ≤ length p ≤ 1000)%nat) pools
  ∧ ∀ i p, pools !! i = Some p → (i + 1 < length pools)%nat → length p = 1000%nat.

(** Characters that end no line and separate no field. *)
Definition plain (c : N) : Prop := islinebreak c = false ∧ c ≠ 32.

Global Instance plain_dec c : Decision (plain c).
Proof. unfold plain. apply _. Defined.

Definition valid_pool (p : list (list N)) : Prop := Forall Grammar.cidr p.

(** Characters that end no line. *)
Definition inline (c : N) : Prop := islinebreak c = false.

Global Instance inline_dec c : Decision (inline c).
Proof. unfold inline. apply _. Defined.

(** The records of [pools], numbered from [id] and [n]. *)
Fixpoint records (id n : nat) (pools : list (list (list N))) : list (list N) :=
  match pools with
  | [] => []
  | p :: ps => group_line id n p :: records (S id) (S n) ps
  end.

Definition names (num_groups : nat) : list (list N) :=
  (λ i, [22269; 20869] ++ lit "IP-" ++ dec i) <$> seq 1 num_groups.

(** Characters of a group name: no line break, no space, no comma. *)
Definition name_char (c : N) : Prop := plain c ∧ c ≠ 44.

(** The record [generate_acl_rules] writes. *)
Definition acl_record (n : nat) : list N :=
  lit "id=60 enabled=yes comment=" ++ [20801; 35768; 22269; 20869]
  ++ lit "IP" ++ [35775; 38382] ++ lit " action=accept dir=forward ctdir=1 "
  ++ lit "iinterface=any ointerface=any src_addr=" ++ join (lit ",") (names n)
  ++ lit " dst_addr= "
  ++ lit "src6_addr= dst6_addr= src6_mode=0 dst6_mode=0 src6_suffix= dst6_suffix= "
  ++ lit "src6_mac= dst6_mac= protocol=any src_port= dst_port= week=1234567 "
  ++ lit "time=00:00-23:59 ip_type=4".

(** A run of [main] on a three-line response. *)
Definition sample_run : option (FS * outcome) :=
  main (DateTime 2024 2 28 12 0 0 0)
       (Some (lit "# list" ++ nl ++ lit "1.2.3.4/24" ++ nl ++ lit "bad" ++ nl))
       ∅.

(** * Properties *)

Example scan_example :
  scan_text (lit "1.2.3.4/24" ++ nl ++ lit "999.1.1.1/24" ++ nl
             ++ lit "10.0.0.0/33" ++ nl ++ lit "# comment" ++ nl ++ nl)
  = Scan [lit "1.2.3.4/24"]
         [(2%nat, lit "999.1.1.1/24"); (3%nat, lit "10.0.0.0/33")].
Proof. vm_compute. reflexivity. Qed.

Example splitlines_example :
  splitlines (lit "a" ++ [13; 10; 10] ++ lit "b" ++ [13]) = [lit "a"; []; lit "b"]
  /\ splitlines [] = [] /\ splitlines nl = [[]]
  /\ split (ch ",") [] = [[]] /\ join (lit ",") [] = [].
Proof. vm_compute. repeat split. Qed.

Example re_match_example :
  re_match cidr_pattern (lit "01.002.3.4/0") = true
  /\ re_match cidr_pattern (lit "1.2.3.4/24" ++ nl) = true
  /\ re_match cidr_pattern (lit "256.1.1.1/1") = false
  /\ re_match cidr_pattern (lit "1.2.3.4/00") = false
  /\ re_match cidr_pattern (lit "1.2.3.4/032") = false.
Proof. vm_compute. repeat split. Qed.

Example generate_ip_groups_example :
  group_file [lit "1.2.3.4/24"; lit "5.6.7.0/8"] (lit "20240229") ∅
  = lit "id=60 comment= type=0 group_name=" ++ [22269; 20869]
    ++ lit "IP-1 addr_pool=1.2.3.4/24,5.6.7.0/8" ++ nl
  /\ (generate_ip_groups [lit "1.2.3.4/24"; lit "5.6.7.0/8"] (lit "20240229") ∅).2
     = (lit "domestic_ikuai_ipgroup-20240229.txt", 1%nat)
  /\ (generate_ip_groups [] (lit "20240229") ∅).2.2 = 0%nat
  /\ group_file [] (lit "20240229") ∅ = [].
Proof. vm_compute. repeat split. Qed.

Example main_example :
  snd <$> sample_run
  = Some (Completed (lit "domestic_ikuai_ipgroup-20240229.txt")
                    (lit "domestic_ikuai_acl-20240229.txt") 1 1)
  /\ (sample_run ≫= λ r, r.1 !! lit "domestic_ikuai_ipgroup-20240229.txt")
     = Some (lit "id=60 comment= type=0 group_name=" ++ [22269; 20869]
             ++ lit "IP-1 addr_pool=1.2.3.4/24" ++ nl)
  /\ (sample_run ≫= λ r,
        r.1 !! lit "domestic_ikuai_acl-20240229.txt" ≫= field "src_addr")
     = Some ([22269; 20869] ++ lit "IP-1").
Proof. vm_compute. repeat split. Qed.

Section ReTheory.

Lemma mt_lang (r : re) :
  anchor_free r = true →
  ∀ i s k,
    mt r i s k = true ↔
    ∃ u v, s = u ++ v ∧ lang r u ∧ k (i + length u)%nat v = true.
Proof.
  induction r as [ | c | items | a IHa b IHb | a IHa b IHb | a IHa | | ];
    simpl; intros Haf i s k; try discriminate.
  - split.
    + intros H. exists [], s. rewrite Nat.add_0_r. done.
    + intros (u & v & -> & -> & H). by rewrite Nat.add_0_r in H.
  - destruct s as [|x s'].
    + split; [done|]. intros (u & v & Hs & -> & _). discriminate.
    + rewrite andb_true_iff, N.eqb_eq. split.
      * intros [-> H]. exists [c], s'. by rewrite Nat.add_1_r.
      * intros (u & v & Hs & -> & H). simplify_eq/=. by rewrite Nat.add_1_r in H.
  - destruct s as [|x s'].
    + split; [done|]. intros (u & v & Hs & (y & -> & _) & _). discriminate.
    + rewrite andb_true_iff. split.
      * intros [Hx H]. exists [x], s'. rewrite Nat.add_1_r. eauto.
      * intros (u & v & Hs & (y & -> & Hy) & H). simplify_eq/=.
        by rewrite Nat.add_1_r in H.
  - apply andb_true_iff in Haf as [Ha Hb].
    rewrite (IHa Ha). split.
    + intros (u & v & -> & Hu & H). apply (IHb Hb) in H as (u' & v' & -> & Hu' & H).
      exists (u ++ u'), v'. rewrite <- app_assoc, length_app, Nat.add_assoc. eauto 10.
    + intros (w & v & -> & (u & u' & -> & Hu & Hu') & H).
      exists u, (u' ++ v). rewrite <- app_assoc. split_and!; [done..|].
      apply (IHb Hb). exists u', v. rewrite length_app, Nat.add_assoc in H. done.
  - apply andb_true_iff in Haf as [Ha Hb].
    rewrite orb_true_iff, (IHa Ha), (IHb Hb). split.
    + intros [(u & v & ? & ? & ?)|(u & v & ? & ? & ?)]; exists u, v; eauto.
    + intros (u & v & ? & [?|?] & ?); [left|right]; exists u, v; eauto.
  - rewrite orb_true_iff, (IHa Haf). split.
    + intros [(u & v & ? & ? & ?)|H]; [exists u, v; eauto|].
      exists [], s. rewrite Nat.add_0_r. eauto.
    + intros (u & v & Hs & [? | ->] & Hk); [left; exists u, v; eauto|].
      right. by rewrite Nat.add_0_r in Hk; subst.
Qed.

End ReTheory.

(** Evaluate the character constants. *)
Ltac chars :=
  repeat match goal with
  | |- context [ch ?a] =>
      let v := eval vm_compute in (ch a) in change (ch a) with v
  | H : context [ch ?a] |- _ =>
      let v := eval vm_compute in (ch a) in change (ch a) with v in H
  end.

Ltac unfold_chars := unfold c0, c1, c2, c3, c4, c5, c9 in *; chars.

(** Break a membership in a language into its parts. *)
Ltac lang_inv :=
  repeat match goal with
  | H : lang _ _ |- _ => progress (simpl in H)
  | H : ∃ _, _ |- _ => destruct H as [? H]
  | H : _ ∧ _ |- _ => destruct H
  | H : _ ∨ _ |- _ => destruct H
  | H : in_class _ _ = true |- _ =>
      unfold in_class, existsb, in_item in H
  | H : _ || _ = true |- _ => apply orb_true_iff in H
  | H : _ && _ = true |- _ => apply andb_true_iff in H
  | H : (_ =? _) = true |- _ => apply N.eqb_eq in H
  | H : (_ <=? _) = true |- _ => apply N.leb_le in H
  | H : false = true |- _ => discriminate H
  end; subst.

Lemma in_range lo hi x : in_class [Range lo hi] x = true ↔ lo ≤ x ≤ hi.
Proof.
  unfold in_class; simpl. rewrite orb_false_r, andb_true_iff, !N.leb_le. done.
Qed.

Lemma in_two a b x : in_class [One a; One b] x = true ↔ x = a ∨ x = b.
Proof.
  unfold in_class; simpl. rewrite orb_false_r, orb_true_iff, !N.eqb_eq. done.
Qed.

Lemma octet_re_spec o : lang octet_re o ↔ Grammar.octet o.
Proof.
  unfold Grammar.octet, octet_re. split.
  - intros H. lang_inv; unfold_chars; simpl.
    + left. eexists. split; [done|lia].
    + right; left. do 2 eexists. unfold is_digit. split; [done|lia].
    + right; right. unfold value, is_digit; simpl.
      split_and!; [lia|lia|repeat constructor; lia|lia].
    + right; right. unfold value, is_digit; simpl.
      split_and!; [lia|lia|repeat constructor; lia|lia].
    + right; right. unfold value, is_digit; simpl.
      split_and!; [lia|lia|repeat constructor; lia|lia].
    + right; right. unfold value, is_digit; simpl.
      split_and!; [lia|lia|repeat constructor; lia|lia].
    + right; right. unfold value, is_digit; simpl.
      split_and!; [lia|lia|repeat constructor; lia|lia].
    + right; right. unfold value, is_digit; simpl.
      split_and!; [lia|lia|repeat constructor; lia|lia].
  - intros [(c & -> & Hc)|[(b & c & -> & Hb & Hc)|(Hlen & Hd & Hv)]]; cbn [lang].
    + left. exists [c2], [c5; c]. split_and!; [done..|].
      exists [c5], [c]. split_and!; [done..|]. exists c. by rewrite in_range.
    + right; left. exists [c2], [b; c]. split_and!; [done..|].
      exists [b], [c]. split_and!; [done| |]; eexists; rewrite in_range; done.
    + destruct o as [|a [|b [|c [|? ?]]]]; simpl in Hlen; try lia.
      * right; right. exists [], [a]. split_and!; [done|by right|].
        exists [a], []. apply Forall_cons in Hd as [Ha _].
        split_and!; [done| |by right]. exists a. by rewrite in_range.
      * right; right. exists [], [a; b]. split_and!; [done|by right|].
        apply Forall_cons in Hd as [Ha Hd]. apply Forall_cons in Hd as [Hb _].
        exists [a], [b]. split_and!; [done| |left]; eexists; rewrite in_range; done.
      * apply Forall_cons in Hd as [Ha Hd]. apply Forall_cons in Hd as [Hb Hd].
        apply Forall_cons in Hd as [Hc _].
        unfold value, is_digit in *; simpl in Hv.
        destruct (decide (a ≤ 49)) as [Ha1|Ha1];
          [|destruct (decide (b ≤ 52)) as [Hb1|Hb1]].
        -- right; right. exists [a], [b; c]. split_and!; [done| |].
           ++ left. exists a. rewrite in_two. unfold_chars. split; [done|lia].
           ++ exists [b], [c].
              split_and!; [done| |left]; eexists; rewrite in_range; done.
        -- right; left. assert (a = c2) as -> by (unfold_chars; lia).
           exists [c2], [b; c]. split_and!; [done..|].
           exists [b], [c].
           split_and!; [done| |]; eexists; rewrite in_range;
             (split; [done|unfold_chars; lia]).
        -- left. assert (a = c2) as -> by (unfold_chars; lia).
           assert (b = c5) as -> by (unfold_chars; lia).
           exists [c2], [c5; c]. split_and!; [done..|].
           exists [c5], [c]. split_and!; [done..|].
           exists c. rewrite in_range. unfold_chars. split; [done|lia].
Qed.

Lemma mask_re_spec m : lang mask_re m ↔ Grammar.mask m.
Proof.
  unfold Grammar.mask, mask_re. cbn [lang]. split.
  - intros [(a & -> & Ha)|[(u & v & -> & (a & -> & Ha) & (b & -> & Hb))
                          |(u & v & -> & -> & (b & -> & Hb))]].
    + left. exists a. by rewrite in_range in Ha.
    + right; left. exists a, b. rewrite in_two in Ha. by rewrite in_range in Hb.
    + right; right. exists b. by rewrite in_range in Hb.
  - intros [(a & -> & Ha)|[(a & b & -> & Ha & Hb)|(b & -> & Hb)]].
    + left. exists a. by rewrite in_range.
    + right; left. exists [a], [b]. split_and!; [done| |]; eexists.
      * by rewrite in_two.
      * by rewrite in_range.
    + right; right. exists [c3], [b]. split_and!; [done..|].
      exists b. by rewrite in_range.
Qed.

Lemma octet_range o :
  Grammar.octet o → (1 ≤ length o ≤ 3)%nat ∧ Forall is_digit o ∧ value o ≤ 255.
Proof.
  intros [(c & -> & Hc)|[(b & c & -> & Hb & Hc)|H]]; [| |done];
    unfold value, is_digit in *; unfold_chars; simpl;
    (split_and!; [lia|lia|repeat constructor; lia|lia]).
Qed.

Lemma mask_range m :
  Grammar.mask m → (1 ≤ length m ≤ 2)%nat ∧ Forall is_digit m ∧ value m ≤ 32.
Proof.
  intros [(a & -> & Ha)|[(a & b & -> & Ha & Hb)|(b & -> & Hb)]];
    unfold value, is_digit in *; unfold_chars; simpl;
    (split_and!; [lia|lia|repeat constructor; lia|lia]).
Qed.

Lemma cidr_body_spec s : lang cidr_body s ↔ Grammar.cidr s.
Proof.
  unfold Grammar.cidr, cidr_body. cbn [lang rep]. split.
  - intros (u & v & -> & (ua & va & -> & (A & d1 & -> & HA & ->)
                          & ub & vb & -> & (B & d2 & -> & HB & ->)
                          & uc & vc & -> & (C & d3 & -> & HC & ->) & ->)
            & D & w & -> & HD & sl & M & -> & -> & HM).
    exists A, B, C, D, M. rewrite octet_re_spec in HA, HB, HC, HD.
    rewrite mask_re_spec in HM. split_and!; try done.
    rewrite app_nil_r, <- !app_assoc. done.
  - intros (A & B & C & D & M & -> & HA & HB & HC & HD & HM).
    rewrite <- octet_re_spec in HA, HB, HC, HD. rewrite <- mask_re_spec in HM.
    exists (A ++ lit "." ++ B ++ lit "." ++ C ++ lit "."), (D ++ lit "/" ++ M).
    split_and!; [by rewrite <- !app_assoc| |].
    + exists (A ++ lit "."), (B ++ lit "." ++ C ++ lit ".").
      split_and!; [by rewrite <- !app_assoc|by exists A, (lit ".")|].
      exists (B ++ lit "."), (C ++ lit ".").
      split_and!; [by rewrite <- !app_assoc|by exists B, (lit ".")|].
      exists (C ++ lit "."), []. split_and!; [by rewrite app_nil_r| |done].
      by exists C, (lit ".").
    + exists D, (lit "/" ++ M). split_and!; [done..|].
      by exists (lit "/"), M.
Qed.

Lemma lstrip_head s c t : lstrip s = c :: t → isspace c = false.
Proof.
  induction s as [|x s IH]; simpl; [done|].
  destruct (isspace x) eqn:Hx; [done|]. by intros [= <- _].
Qed.

Lemma strip_last raw w c : strip raw = w ++ [c] → isspace c = false.
Proof.
  unfold strip, rstrip. intros H.
  apply (f_equal (@rev N)) in H. rewrite rev_involutive, rev_app_distr in H.
  simpl in H. by apply lstrip_head in H.
Qed.

Lemma lstrip_spaces s : Forall (λ c, isspace c = true) s → lstrip s = [].
Proof. induction 1 as [|c s Hc _ IH]; simpl; [done|]. by rewrite Hc. Qed.

Lemma strip_spaces s : Forall (λ c, isspace c = true) s → strip s = [].
Proof. intros H. unfold strip. by rewrite (lstrip_spaces _ H). Qed.

Lemma re_match_cidr s :
  re_match cidr_pattern s = true ↔
  Grammar.cidr s ∨ ∃ w, s = w ++ nl ∧ Grammar.cidr w.
Proof.
  unfold re_match, cidr_pattern. cbn [mt Nat.eqb andb].
  rewrite mt_lang by done. setoid_rewrite cidr_body_spec. split.
  - intros (u & v & -> & Hu & Hv). destruct v as [|c [|? ?]]; [| |done].
    + left. by rewrite app_nil_r.
    + right. rewrite andb_true_r in Hv. apply N.eqb_eq in Hv as ->. by exists u.
  - intros [H|(w & -> & H)].
    + exists s, []. by rewrite app_nil_r.
    + by exists w, nl.
Qed.

Lemma re_match_trimmed raw :
  re_match cidr_pattern (strip raw) = true ↔ Grammar.cidr (strip raw).
Proof.
  rewrite re_match_cidr. split; [|by left].
  intros [H|(w & Hw & _)]; [done|]. by apply strip_last in Hw.
Qed.

Lemma cidr_candidate s : Grammar.cidr s → candidate s.
Proof.
  intros (A & B & C & D & M & -> & HA & _).
  apply octet_range in HA as (Hlen & Hd & _).
  destruct A as [|a A]; simpl in Hlen; [lia|].
  apply Forall_cons in Hd as [Ha _]. unfold is_digit in Ha.
  split; [done|].
  change (((35 =? a) && true) = false).
  destruct (N.eqb_spec 35 a); [lia|done].
Qed.

Lemma enumerate_fmap {A B} (g : A → B) n (l : list A) :
  enumerate n (g <$> l) = prod_map id g <$> enumerate n l.
Proof. revert n; induction l as [|x l IH]; intros n; simpl; [done|]. by rewrite IH. Qed.

Lemma elem_of_enumerate {A} n (l : list A) k x :
  (k, x) ∈ enumerate n l ↔ ∃ j, k = (n + j)%nat ∧ l !! j = Some x.
Proof.
  revert n; induction l as [|y l IH]; intros n; simpl.
  - rewrite elem_of_nil. split; [done|]. by intros (j & _ & ?).
  - rewrite elem_of_cons, IH. split.
    + intros [[= -> ->]|(j & -> & Hj)].
      * exists 0%nat. by rewrite Nat.add_0_r.
      * exists (S j). split; [lia|done].
    + intros ([|j] & -> & Hj); simpl in Hj.
      * left. simplify_eq. by rewrite Nat.add_0_r.
      * right. exists j. split; [lia|done].
Qed.

Lemma scan_fold ls n acc :
  fold_left scan_line (enumerate n ls) acc
  = Scan (cidrs acc ++ filter accepted (strip <$> ls))
         (skipped acc ++ filter rejected (enumerate n (strip <$> ls))).
Proof.
  revert n acc; induction ls as [|raw ls IH]; intros n acc;
    cbn [enumerate fold_left fmap list_fmap].
  - rewrite !filter_nil, !app_nil_r. by destruct acc.
  - rewrite IH. rewrite !filter_cons. unfold scan_line.
    destruct (decide (strip raw = [])) as [He|He].
    { rewrite bool_decide_eq_true_2 by done. cbn [orb].
      rewrite !decide_False; [done|..]; unfold rejected, accepted, candidate;
        cbn [snd]; tauto. }
    rewrite bool_decide_eq_false_2 by done. cbn [orb].
    destruct (startswith (lit "#") (strip raw)) eqn:Hc.
    { rewrite !decide_False; [done|..]; unfold rejected, accepted, candidate;
        cbn [snd]; rewrite Hc; intuition discriminate. }
    destruct (re_match cidr_pattern (strip raw)) eqn:Hm; cbn [cidrs skipped].
    + rewrite decide_True by (by split).
      rewrite decide_False
        by (unfold rejected; cbn [snd]; rewrite Hm; intuition discriminate).
      by rewrite <- app_assoc.
    + rewrite decide_False
        by (unfold accepted; rewrite Hm; intuition discriminate).
      rewrite decide_True by (by split).
      by rewrite <- app_assoc.
Qed.

Lemma scan_text_cidrs text :
  cidrs (scan_text text) = filter accepted (strip <$> splitlines text).
Proof. unfold scan_text. by rewrite scan_fold. Qed.

Lemma scan_text_skipped text :
  skipped (scan_text text)
  = filter rejected (enumerate 1 (strip <$> splitlines text)).
Proof. unfold scan_text. by rewrite scan_fold. Qed.

Lemma selects_filter {A} (P Q R : A → Prop)
    `{∀ x, Decision (Q x)} `{∀ x, Decision (R x)} (l : list A) :
  (∀ x, x ∈ l → R x ↔ Q x ∧ P x) →
  selects P (filter Q l) (filter R l).
Proof.
  induction l as [|x l IH]; intros HR; [constructor|].
  rewrite !filter_cons.
  assert (selects P (filter Q l) (filter R l)) as IH'.
  { apply IH. intros y Hy. apply HR. by right. }
  specialize (HR x (list_elem_of_here _ _)).
  destruct (decide (Q x)) as [HQ|HQ]; destruct (decide (R x)) as [Hx|Hx].
  - constructor; [tauto|done].
  - apply selects_drop; [tauto|done].
  - tauto.
  - done.
Qed.

Lemma skipped_lines n (l : list (list N)) :
  snd <$> filter rejected (enumerate n l) = filter unmatched l.
Proof.
  revert n; induction l as [|x l IH]; intros n; [done|].
  cbn [enumerate]. rewrite !filter_cons.
  destruct (decide (rejected (n, x))) as [Hr|Hr];
    destruct (decide (unmatched x)) as [Hu|Hu];
    cbn [fmap list_fmap snd]; rewrite ?IH; done.
Qed.

(** C3: every string the validator returns matches the grammar
    [A.B.C.D/M] of the specification, with octets of value at most 255
    and a mask of value at most 32; the strings returned are, verbatim
    and in the order of the input, the trimmed lines that are neither
    blank nor comments and match the grammar; the test the code applies
    to a trimmed line is that grammar; and the lines that fail it are
    the ones reported as skipped, the scan going on after them. *)
Theorem validation_grammar (text : str) :
  let lines := strip <$> splitlines text in
  let out := fetch_domestic_cidrs (Some text) in
  (∀ s, s ∈ out →
     Grammar.cidr s ∧
     ∃ A B C D M,
       s = A ++ lit "." ++ B ++ lit "." ++ C ++ lit "." ++ D ++ lit "/" ++ M
       ∧ Forall (λ o, Forall is_digit o ∧ value o ≤ 255) [A; B; C; D]
       ∧ Forall is_digit M ∧ value M ≤ 32)
  ∧ selects Grammar.cidr (filter candidate lines) out
  ∧ (∀ raw, re_match cidr_pattern (strip raw) = true ↔ Grammar.cidr (strip raw))
  ∧ selects (λ l, ¬ Grammar.cidr l) (filter candidate lines)
            (snd <$> skipped (scan_text text)).
Proof.
  intros lines out. subst out. cbn [fetch_domestic_cidrs].
  rewrite scan_text_cidrs, scan_text_skipped. fold lines.
  assert (∀ x, x ∈ lines → re_match cidr_pattern x = true ↔ Grammar.cidr x)
    as Hm.
  { intros x (raw & -> & _)%list_elem_of_fmap. apply re_match_trimmed. }
  split_and!.
  - intros s [[_ Hacc] Hs]%list_elem_of_filter.
    apply Hm in Hacc; [|done]. split; [done|].
    destruct Hacc as (A & B & C & D & M & -> & HA & HB & HC & HD & HM).
    exists A, B, C, D, M. split; [done|].
    apply octet_range in HA, HB, HC, HD. apply mask_range in HM.
    split_and!; [|tauto..]. repeat constructor; tauto.
  - apply selects_filter. intros x Hx. unfold accepted.
    rewrite (Hm x Hx). tauto.
  - apply re_match_trimmed.
  - rewrite skipped_lines.
    apply selects_filter. intros x Hx. unfold unmatched.
    rewrite <- (Hm x Hx). destruct (re_match cidr_pattern x); intuition congruence.
Qed.

(** C4: a text whose lines are [1.2.3.4/24], [999.1.1.1/24],
    [10.0.0.0/33], [# comment] and a blank line yields exactly
    [["1.2.3.4/24"]]. *)
Theorem worked_extraction_example (text : str) :
  splitlines text
  = [lit "1.2.3.4/24"; lit "999.1.1.1/24"; lit "10.0.0.0/33"; lit "# comment"; []] →
  fetch_domestic_cidrs (Some text) = [lit "1.2.3.4/24"].
Proof.
  intros H. unfold fetch_domestic_cidrs, scan_text. rewrite H.
  vm_compute. reflexivity.
Qed.

Lemma worked_extraction_example_witness :
  fetch_domestic_cidrs
    (Some (lit "1.2.3.4/24" ++ nl ++ lit "999.1.1.1/24" ++ nl
           ++ lit "10.0.0.0/33" ++ nl ++ lit "# comment" ++ nl ++ nl))
  = [lit "1.2.3.4/24"].
Proof. apply worked_extraction_example. vm_compute. reflexivity. Defined.

(** C5: a line that is empty or made of whitespace only, or whose
    trimmed form is empty or begins with [#], is not in the validator's
    output and no skipped-line report carries its number or its text. *)
Theorem comments_and_blanks_skipped (text : str) (i : nat) (raw : str) :
  splitlines text !! i = Some raw →
  raw = [] ∨ Forall (λ c, isspace c = true) raw
  ∨ strip raw = [] ∨ startswith (lit "#") (strip raw) = true →
  (strip raw ∉ fetch_domestic_cidrs (Some text))
  ∧ (∀ e, e ∈ skipped (scan_text text) → e.1 ≠ S i ∧ e.2 ≠ strip raw).
Proof.
  intros Hi Hraw. cbn [fetch_domestic_cidrs].
  rewrite scan_text_cidrs, scan_text_skipped.
  assert (¬ candidate (strip raw)) as Hnc.
  { unfold candidate.
    destruct Hraw as [->|[Hs|[He|Hc]]]; [tauto| |tauto|].
    - rewrite (strip_spaces _ Hs). tauto.
    - rewrite Hc. intuition discriminate. }
  split.
  - intros [[Hc _] _]%list_elem_of_filter. done.
  - intros [n l] [[Hc _] He]%list_elem_of_filter. cbn [fst snd] in *.
    split; [|by intros ->].
    intros ->. apply elem_of_enumerate in He as (j & [= <-] & Hj).
    rewrite list_lookup_fmap, Hi in Hj. simplify_eq/=. done.
Qed.

Lemma comments_and_blanks_skipped_witness :
  (strip (lit "  # note") ∉
     fetch_domestic_cidrs (Some (lit "1.2.3.4/24" ++ nl ++ lit "  # note" ++ nl)))
  ∧ (∀ e, e ∈ skipped (scan_text (lit "1.2.3.4/24" ++ nl ++ lit "  # note" ++ nl)) →
          e.1 ≠ 2%nat ∧ e.2 ≠ strip (lit "  # note")).
Proof.
  apply (comments_and_blanks_skipped _ 1 (lit "  # note")).
  - vm_compute. reflexivity.
  - right; right; right. vm_compute. reflexivity.
Defined.

Section StrFacts.

Lemma split_nosep sep (a : list N) : sep ∉ a → split sep a = [a].
Proof.
  induction a as [|c a IH]; intros Ha; [done|].
  apply not_elem_of_cons in Ha as [Hc Ha]. cbn [split].
  destruct (N.eqb_spec c sep) as [->|_]; [done|]. by rewrite (IH Ha).
Qed.

Lemma split_app_sep sep (a b : list N) :
  sep ∉ a → split sep (a ++ sep :: b) = a :: split sep b.
Proof.
  induction a as [|c a IH]; intros Ha; cbn [app split].
  - by rewrite N.eqb_refl.
  - apply not_elem_of_cons in Ha as [Hc Ha].
    destruct (N.eqb_spec c sep) as [->|_]; [done|]. by rewrite (IH Ha).
Qed.

Lemma join_cons sep w (l : list (list N)) :
  l ≠ [] → join sep (w :: l) = w ++ sep ++ join sep l.
Proof. by destruct l. Qed.

Lemma split_join sep (l : list (list N)) :
  l ≠ [] → Forall (λ w, sep ∉ w) l → split sep (join [sep] l) = l.
Proof.
  intros Hne Hl. induction Hl as [|w l Hw Hl IH]; [done|].
  destruct (decide (l = [])) as [->|Hl'].
  - by apply split_nosep.
  - rewrite join_cons by done.
    change ([sep] ++ join [sep] l) with (sep :: join [sep] l).
    rewrite split_app_sep by done. by rewrite IH.
Qed.

Lemma not_elem_of_join c sep (l : list (list N)) :
  c ∉ sep → Forall (λ w, c ∉ w) l → c ∉ join sep l.
Proof.
  intros Hs Hl. induction Hl as [|w l Hw Hl IH]; [by apply not_elem_of_nil|].
  destruct (decide (l = [])) as [->|Hl']; [done|].
  rewrite join_cons by done. rewrite !not_elem_of_app. auto.
Qed.

Lemma join_nonempty sep (l : list (list N)) :
  l ≠ [] → Forall (λ w, w ≠ []) l → join sep l ≠ [].
Proof.
  intros Hne Hl. destruct Hl as [|w l Hw Hl]; [done|].
  destruct l; cbn [join]; [done|]. by destruct w.
Qed.

Lemma string_of_uint_digits d :
  Forall is_digit (lit (NilEmpty.string_of_uint d)).
Proof.
  induction d; cbn [NilEmpty.string_of_uint lit list_ascii_of_string fmap list_fmap];
    [constructor|constructor; [unfold is_digit; chars; lia|done]..].
Qed.

Lemma dec_digits n : Forall is_digit (dec n).
Proof. apply string_of_uint_digits. Qed.

Lemma lit_inj s t : lit s = lit t → s = t.
Proof.
  revert t; induction s as [|a s IH]; intros [|b t]; cbn; try done.
  intros [= Hab Hst]. f_equal; [|by apply IH].
  rewrite <- (ascii_N_embedding a), <- (ascii_N_embedding b). by f_equal.
Qed.

Lemma dec_inj n m : dec n = dec m → n = m.
Proof.
  intros H%lit_inj.
  assert (Some (Nat.to_uint n) = Some (Nat.to_uint m)) as [= Hu].
  { rewrite <- !NilEmpty.usu. by rewrite H. }
  by apply DecimalNat.Unsigned.to_uint_inj.
Qed.

Lemma dec_nonempty n : dec n ≠ [].
Proof.
  unfold dec. destruct (Nat.to_uint n) eqn:Hn; try done.
  pose proof (DecimalNat.Unsigned.of_to n) as Hof. rewrite Hn in Hof.
  cbn in Hof. subst n. discriminate Hn.
Qed.

Lemma digit_not c (s : list N) :
  Forall is_digit s → ¬ is_digit c → c ∉ s.
Proof. intros Hs Hc Hin. rewrite Forall_forall in Hs. auto. Qed.

End StrFacts.

Lemma cidr_chars s : Grammar.cidr s → s ≠ [] ∧ Forall cidr_char s.
Proof.
  intros (A & B & C & D & M & -> & HA & HB & HC & HD & HM).
  apply octet_range in HA as (HlA & HA & _), HB as (_ & HB & _),
    HC as (_ & HC & _), HD as (_ & HD & _).
  apply mask_range in HM as (_ & HM & _).
  split; [destruct A; [simpl in HlA; lia|done]|].
  assert (∀ l, Forall is_digit l → Forall cidr_char l) as Hd.
  { intros l Hl. eapply Forall_impl; [exact Hl|]. by left. }
  assert (Forall cidr_char (lit ".")) as Hdot.
  { change (lit ".") with [46]. apply Forall_singleton. right; left. reflexivity. }
  assert (Forall cidr_char (lit "/")) as Hslash.
  { change (lit "/") with [47]. apply Forall_singleton. right; right. reflexivity. }
  rewrite !Forall_app. split_and!; auto.
Qed.

Lemma cidr_char_not c s : Forall cidr_char s → ¬ cidr_char c → c ∉ s.
Proof. intros Hs Hc Hin. rewrite Forall_forall in Hs. auto. Qed.

Ltac not_cidr_char :=
  unfold cidr_char, is_digit; chars; lia.

(** ** The loop of [generate_ip_groups] *)

Lemma render_app a b ps qs :
  render a b (ps ++ qs)
  = render a b ps ++ render (a + length ps) (b + length ps) qs.
Proof.
  revert a b; induction ps as [|p ps IH]; intros a b; cbn [app render length].
  - by rewrite !Nat.add_0_r.
  - rewrite IH, <- !app_assoc, !Nat.add_succ_r. done.
Qed.

Lemma fold_add_cidr cidrs w :
  (length (addr_pool w) < 1000)%nat →
  ∃ full,
    Forall (λ p, length p = 1000%nat) full
    ∧ addr_pool w ++ cidrs = concat full ++ addr_pool (fold_left add_cidr cidrs w)
    ∧ (length (addr_pool (fold_left add_cidr cidrs w)) < 1000)%nat
    ∧ f (fold_left add_cidr cidrs w) = f w ++ render (num_id w) (num_line w) full
    ∧ num_id (fold_left add_cidr cidrs w) = (num_id w + length full)%nat
    ∧ num_line (fold_left add_cidr cidrs w) = (num_line w + length full)%nat.
Proof.
  revert w; induction cidrs as [|c cidrs IH]; intros w Hw; cbn [fold_left].
  - exists []. cbn [concat render length app]. rewrite !app_nil_r, !Nat.add_0_r. done.
  - unfold add_cidr at 2 4 6 8 10.
    pose proof (length_app (addr_pool w) [c]) as Hlen. cbn [length] in Hlen.
    destruct (Nat.ltb_spec (length (addr_pool w ++ [c])) 1000) as [Hlt|Hge].
    + destruct (IH (Writer (num_line w) (num_id w) (addr_pool w ++ [c]) (f w)))
        as (full & H1 & H2 & H3 & H4 & H5 & H6); [done|].
      cbn [addr_pool f num_id num_line] in *.
      exists full. rewrite <- app_assoc in H2. done.
    + destruct (IH (Writer (num_line w + 1) (num_id w + 1) []
                     (f w ++ group_line (num_id w) (num_line w) (addr_pool w ++ [c]) ++ nl)))
        as (full & H1 & H2 & H3 & H4 & H5 & H6);
        [cbn [addr_pool length]; lia|].
      cbn [addr_pool f num_id num_line app] in *.
      exists ((addr_pool w ++ [c]) :: full). split_and!.
      * constructor; [lia|done].
      * cbn [concat]. rewrite <- !app_assoc. cbn [app]. by rewrite <- H2.
      * done.
      * rewrite H4. cbn [render]. rewrite <- !app_assoc, !Nat.add_1_r. done.
      * rewrite H5. cbn [length]. lia.
      * rewrite H6. cbn [length]. lia.
Qed.

Lemma partition cidrs :
  ∃ pools,
    concat pools = cidrs ∧ shape pools
    ∧ f (write_rest (fold_left add_cidr cidrs start)) = render 60 1 pools
    ∧ (num_line (write_rest (fold_left add_cidr cidrs start)) - 1)%nat = length pools.
Proof.
  destruct (fold_add_cidr cidrs start) as (full & H1 & H2 & H3 & H4 & H5 & H6);
    [cbn [start addr_pool length]; lia|].
  cbn [start addr_pool f num_id num_line app] in *.
  unfold write_rest. set (w := fold_left add_cidr cidrs start) in *.
  destruct (addr_pool w) as [|c rest] eqn:Hpool.
  - exists full. rewrite app_nil_r in H2. split_and!; [done| |done|lia].
    split.
    + eapply Forall_impl; [exact H1|]. cbn; lia.
    + intros i p Hp _. rewrite Forall_forall in H1.
      apply H1. by eapply list_elem_of_lookup_2.
  - exists (full ++ [c :: rest]). cbn [f num_line].
    split_and!.
    + by rewrite concat_app, H2; cbn [concat]; rewrite app_nil_r.
    + split.
      * apply Forall_app; split.
        -- eapply Forall_impl; [exact H1|]. cbn; lia.
        -- apply Forall_singleton. cbn [length] in *. lia.
      * intros i p Hp Hi. rewrite length_app in Hi. cbn [length] in Hi.
        rewrite lookup_app_l in Hp by lia.
        rewrite Forall_forall in H1. apply H1. by eapply list_elem_of_lookup_2.
    + rewrite H4, H5, H6, render_app. cbn [render]. by rewrite app_nil_r.
    + rewrite H6, length_app. cbn [length]. lia.
Qed.

Lemma plain_lit (l : list N) : bool_decide (Forall plain l) = true → Forall plain l.
Proof. apply bool_decide_eq_true_1. Qed.

Lemma digit_plain c : is_digit c → plain c.
Proof.
  unfold is_digit, plain, islinebreak. intros Hc. split; [|lia].
  repeat match goal with
         | |- context [?a <=? ?b] => destruct (N.leb_spec a b); try lia
         | |- context [?a =? ?b] => destruct (N.eqb_spec a b); try lia
         end; done.
Qed.

Lemma cidr_char_plain c : cidr_char c → plain c.
Proof.
  intros [Hc|[->| ->]]; [by apply digit_plain|done..].
Qed.

Lemma dec_plain n : Forall plain (dec n).
Proof. eapply Forall_impl; [apply dec_digits|]. apply digit_plain. Qed.

Lemma join_Forall (P : N → Prop) sep (l : list (list N)) :
  Forall P sep → Forall (Forall P) l → Forall P (join sep l).
Proof.
  intros Hs Hl. induction Hl as [|w l Hw Hl IH]; [constructor|].
  destruct (decide (l = [])) as [->|Hne]; [done|].
  rewrite join_cons by done. rewrite !Forall_app. auto.
Qed.

Lemma pool_plain p : valid_pool p → Forall plain (join (lit ",") p).
Proof.
  intros Hp. apply join_Forall; [by apply plain_lit|].
  eapply Forall_impl; [exact Hp|]. intros s [_ Hs]%cidr_chars.
  eapply Forall_impl; [exact Hs|]. apply cidr_char_plain.
Qed.

Lemma pool_members p :
  valid_pool p → p ≠ [] →
  join (lit ",") p ≠ [] ∧ split (ch ",") (join (lit ",") p) = p.
Proof.
  intros Hp Hne. split.
  - apply join_nonempty; [done|].
    eapply Forall_impl; [exact Hp|]. by intros s [? _]%cidr_chars.
  - apply (split_join 44); [done|].
    eapply Forall_impl; [exact Hp|]. intros s [_ Hs]%cidr_chars.
    apply (cidr_char_not _ _ Hs). not_cidr_char.
Qed.

Lemma plain_no_space (l : list N) : Forall plain l → 32 ∉ l.
Proof. intros Hl Hin. rewrite Forall_forall in Hl. by destruct (Hl _ Hin). Qed.

(** The fields of a group record. *)
Lemma group_line_split id n p :
  valid_pool p →
  split (ch " ") (group_line id n p)
  = [lit "id=" ++ dec id; lit "comment="; lit "type=0";
     lit "group_name=" ++ [22269; 20869] ++ lit "IP-" ++ dec n;
     lit "addr_pool=" ++ join (lit ",") p].
Proof.
  intros Hp.
  assert (group_line id n p
          = (lit "id=" ++ dec id) ++ 32 :: lit "comment=" ++ 32 :: lit "type=0"
            ++ 32 :: (lit "group_name=" ++ [22269; 20869] ++ lit "IP-" ++ dec n)
            ++ 32 :: (lit "addr_pool=" ++ join (lit ",") p)) as ->.
  { unfold group_line. rewrite <- !app_assoc. reflexivity. }
  change (ch " ") with 32.
  pose proof (dec_plain id). pose proof (dec_plain n). pose proof (pool_plain p Hp).
  rewrite !split_app_sep, split_nosep; [done|..];
    apply plain_no_space; rewrite ?Forall_app; split_and?;
      try done; by apply plain_lit.
Qed.

Lemma group_line_fields id n p :
  valid_pool p →
  field "id" (group_line id n p) = Some (dec id)
  ∧ field "group_name" (group_line id n p)
    = Some ([22269; 20869] ++ lit "IP-" ++ dec n)
  ∧ field "addr_pool" (group_line id n p) = Some (join (lit ",") p).
Proof.
  intros Hp. unfold field. rewrite (group_line_split _ _ _ Hp).
  split_and!; reflexivity.
Qed.

Lemma group_line_members id n p :
  valid_pool p → p ≠ [] → members (group_line id n p) = p.
Proof.
  intros Hp Hne. unfold members.
  destruct (group_line_fields id n p Hp) as (_ & _ & ->).
  destruct (pool_members p Hp Hne) as [Hj ->].
  by destruct (join (lit ",") p).
Qed.

Lemma inline_lit (l : list N) :
  bool_decide (Forall inline l) = true → Forall inline l.
Proof. apply bool_decide_eq_true_1. Qed.

Lemma plain_inline (l : list N) : Forall plain l → Forall inline l.
Proof. intros Hl. eapply Forall_impl; [exact Hl|]. by intros c [? _]. Qed.

Lemma group_line_inline id n p : valid_pool p → Forall inline (group_line id n p).
Proof.
  intros Hp. unfold group_line.
  pose proof (plain_inline _ (dec_plain id)).
  pose proof (plain_inline _ (dec_plain n)).
  pose proof (plain_inline _ (pool_plain p Hp)).
  rewrite !Forall_app. split_and!; try done;
    apply inline_lit; vm_compute; reflexivity.
Qed.

Lemma splitlines_go_line cur l rest :
  Forall inline l →
  splitlines_go false cur (l ++ nl ++ rest)
  = (cur ++ l) :: splitlines_go false [] rest.
Proof.
  intros Hl. revert cur. induction Hl as [|c l Hc Hl IH]; intros cur.
  - by rewrite app_nil_r.
  - cbn [app splitlines_go andb]. rewrite Hc, IH, <- app_assoc. done.
Qed.

Lemma splitlines_render id n pools :
  Forall valid_pool pools →
  splitlines (render id n pools) = records id n pools.
Proof.
  intros Hp. revert id n. induction Hp as [|p ps Hp Hps IH]; intros id n.
  - done.
  - cbn [render records]. unfold splitlines in *.
    rewrite splitlines_go_line, IH; [done|].
    by apply group_line_inline.
Qed.

Lemma records_length id n pools : length (records id n pools) = length pools.
Proof.
  revert id n; induction pools as [|p ps IH]; intros id n; cbn; [done|].
  by rewrite IH.
Qed.

Lemma records_members id n pools :
  Forall valid_pool pools → Forall (λ p, p ≠ []) pools →
  members <$> records id n pools = pools.
Proof.
  intros Hp Hne. revert id n.
  induction Hp as [|p ps Hp Hps IH]; intros id n; [done|].
  apply Forall_cons in Hne as [Hne Hnes].
  cbn [records fmap list_fmap]. rewrite group_line_members by done.
  f_equal. by apply IH.
Qed.

Lemma records_pool_fields id n pools :
  Forall valid_pool pools →
  (λ line, default [] (field "addr_pool" line)) <$> records id n pools
  = join (lit ",") <$> pools.
Proof.
  intros Hp. revert id n.
  induction Hp as [|p ps Hp Hps IH]; intros id n; [done|].
  cbn [records fmap list_fmap].
  destruct (group_line_fields id n p Hp) as (_ & _ & ->). cbn [default].
  f_equal. by apply IH.
Qed.

Lemma records_ids id n pools :
  Forall valid_pool pools →
  field "id" <$> records id n pools
  = (λ i, Some (dec i)) <$> seq id (length pools).
Proof.
  intros Hp. revert id n.
  induction Hp as [|p ps Hp Hps IH]; intros id n; [done|].
  cbn [records fmap list_fmap length seq].
  destruct (group_line_fields id n p Hp) as (-> & _ & _).
  f_equal. by apply IH.
Qed.

Lemma records_names id n pools :
  Forall valid_pool pools →
  field "group_name" <$> records id n pools
  = (λ i, Some ([22269; 20869] ++ lit "IP-" ++ dec i)) <$> seq n (length pools).
Proof.
  intros Hp. revert id n.
  induction Hp as [|p ps Hp Hps IH]; intros id n; [done|].
  cbn [records fmap list_fmap length seq].
  destruct (group_line_fields id n p Hp) as (_ & -> & _).
  f_equal. by apply IH.
Qed.

Lemma valid_pools pools :
  Forall Grammar.cidr (concat pools) → Forall valid_pool pools.
Proof.
  induction pools as [|p ps IH]; cbn [concat]; [constructor|].
  rewrite Forall_app. intros [Hp Hps]. constructor; auto.
Qed.

Lemma shape_nonempty pools : shape pools → Forall (λ p, p ≠ []) pools.
Proof.
  intros [H _]. eapply Forall_impl; [exact H|].
  intros [|c p]; cbn [length]; [lia|done].
Qed.

(** The file [generate_ip_groups] leaves. *)
Lemma group_file_text cidrs data_date fs :
  group_file cidrs data_date fs
  = f (write_rest (fold_left add_cidr cidrs start)).
Proof.
  unfold group_file, generate_ip_groups, write_file.
  by rewrite lookup_insert_eq.
Qed.

Lemma group_file_records cidrs data_date fs :
  Forall Grammar.cidr cidrs →
  ∃ pools,
    concat pools = cidrs ∧ shape pools
    ∧ splitlines (group_file cidrs data_date fs) = records 60 1 pools
    ∧ (generate_ip_groups cidrs data_date fs).2.2 = length pools.
Proof.
  intros Hv. destruct (partition cidrs) as (pools & Hc & Hs & Hf & Hn).
  exists pools. rewrite group_file_text, Hf. split_and!; [done..| |done].
  apply splitlines_render, valid_pools. by rewrite Hc.
Qed.

Lemma shape_cons p ps :
  shape (p :: ps) → ps ≠ [] → length p = 1000%nat ∧ shape ps.
Proof.
  intros [Hall Hfull] Hne. apply Forall_cons in Hall as [_ Hall]. split.
  - apply (Hfull 0%nat); [done|]. destruct ps; [done|]. cbn [length]. lia.
  - split; [done|]. intros i q Hq Hi. apply (Hfull (S i)); [done|].
    cbn [length]. lia.
Qed.

Lemma chunk_sizes_small n :
  (1 ≤ n ≤ 1000)%nat → chunk_sizes n = [n].
Proof.
  intros Hn. unfold chunk_sizes.
  destruct (decide (n = 1000%nat)) as [->|Hne]; [reflexivity|].
  rewrite Nat.div_small, Nat.mod_small by lia.
  destruct (Nat.eqb_spec n 0); [lia|done].
Qed.

Lemma chunk_sizes_step m :
  chunk_sizes (1000 + m) = 1000%nat :: chunk_sizes m.
Proof.
  unfold chunk_sizes.
  replace (1000 + m)%nat with (m + 1 * 1000)%nat by lia.
  rewrite Nat.div_add, Nat.Div0.mod_add by lia.
  rewrite Nat.add_1_r. reflexivity.
Qed.

Lemma shape_sizes pools :
  shape pools → length <$> pools = chunk_sizes (length (concat pools)).
Proof.
  induction pools as [|p ps IH]; intros Hs; [reflexivity|].
  destruct (decide (ps = [])) as [->|Hne].
  - destruct Hs as [Hall _]. apply Forall_cons in Hall as [Hp _].
    cbn [concat fmap list_fmap]. rewrite app_nil_r.
    by rewrite chunk_sizes_small.
  - destruct (shape_cons _ _ Hs Hne) as [Hp Hps].
    cbn [concat fmap list_fmap]. rewrite length_app, Hp, chunk_sizes_step.
    by rewrite IH.
Qed.

Lemma validated s :
  re_match cidr_pattern s = true → strip s = s → Grammar.cidr s.
Proof. intros Hm Hs. rewrite <- Hs in *. by apply re_match_trimmed. Qed.

Lemma sample_cidr : Grammar.cidr (lit "1.2.3.4/24").
Proof. apply validated; vm_compute; reflexivity. Qed.

(** C1: the groups written for validated CIDRs hold 1000 members each
    but the last, which holds between 1 and 1000; no group is empty and
    no input gives no group; 2500 CIDRs give three groups of sizes 1000,
    1000 and 500, with ids 60, 61, 62 and names numbered 1, 2, 3; 1000
    CIDRs give one group of size 1000. *)
Theorem partition_shape (cidrs : list str) (data_date : str) (fs : FS) :
  Forall Grammar.cidr cidrs →
  let groups := splitlines (group_file cidrs data_date fs) in
  let sizes := (λ g, length (members g)) <$> groups in
  (generate_ip_groups cidrs data_date fs).2.2 = length groups
  ∧ sizes = chunk_sizes (length cidrs)
  ∧ (∀ i n, sizes !! i = Some n →
       (1 ≤ n ≤ 1000)%nat ∧ ((i + 1 < length sizes)%nat → n = 1000%nat))
  ∧ (cidrs = [] → groups = [])
  ∧ (length cidrs = 2500%nat →
       sizes = [1000; 1000; 500]%nat
       ∧ field "id" <$> groups = [Some (lit "60"); Some (lit "61"); Some (lit "62")]
       ∧ field "group_name" <$> groups
         = [Some ([22269; 20869] ++ lit "IP-1");
            Some ([22269; 20869] ++ lit "IP-2");
            Some ([22269; 20869] ++ lit "IP-3")])
  ∧ (length cidrs = 1000%nat → sizes = [1000%nat]).
Proof.
  intros Hv groups sizes.
  destruct (group_file_records cidrs data_date fs Hv)
    as (pools & Hc & Hs & Hg & Hn).
  fold groups in Hg.
  assert (Forall valid_pool pools) as Hvp by (apply valid_pools; by rewrite Hc).
  assert (sizes = length <$> pools) as Hsz.
  { subst sizes. rewrite Hg, (list_fmap_compose members length).
    by rewrite records_members by auto using shape_nonempty. }
  assert (sizes = chunk_sizes (length cidrs)) as Hch.
  { by rewrite Hsz, shape_sizes, Hc. }
  assert (length groups = length pools) as Hlen.
  { by rewrite Hg, records_length. }
  split_and!.
  - by rewrite Hlen.
  - done.
  - intros i n Hi. rewrite Hsz in Hi |- *.
    rewrite list_lookup_fmap in Hi.
    destruct (pools !! i) as [p|] eqn:Hp; [|done]. injection Hi as <-.
    destruct Hs as [Hall Hfull]. split.
    + rewrite Forall_forall in Hall. apply Hall. by eapply list_elem_of_lookup_2.
    + rewrite length_fmap. by apply Hfull.
  - intros ->. destruct pools as [|p ps]; [by rewrite Hg|].
    destruct Hs as [Hall _]. apply Forall_cons in Hall as [Hp _].
    destruct p; [cbn [length] in Hp; lia|done].
  - intros H2500. rewrite H2500 in Hch.
    assert (length pools = 3%nat) as Hl3.
    { rewrite <- (length_fmap length pools), <- Hsz, Hch. reflexivity. }
    rewrite Hg, records_ids, records_names, Hl3 by done.
    split_and!; [exact Hch|reflexivity..].
  - intros H1000. by rewrite Hch, H1000.
Qed.

Lemma partition_shape_witness :
  let groups :=
    splitlines (group_file (replicate 2500 (lit "1.2.3.4/24")) (lit "20240101") ∅) in
  (λ g, length (members g)) <$> groups = [1000; 1000; 500]%nat
  ∧ field "id" <$> groups = [Some (lit "60"); Some (lit "61"); Some (lit "62")]
  ∧ field "group_name" <$> groups
    = [Some ([22269; 20869] ++ lit "IP-1");
       Some ([22269; 20869] ++ lit "IP-2");
       Some ([22269; 20869] ++ lit "IP-3")].
Proof.
  refine (proj1 (proj2 (proj2 (proj2 (proj2
    (partition_shape (replicate 2500 (lit "1.2.3.4/24")) (lit "20240101") ∅ _))))) _).
  - apply Forall_replicate, sample_cidr.
  - apply length_replicate.
Defined.

(** C2, as stated, fails: joining the [addr_pool] fields of 1001 CIDRs
    end to end fuses the last member of the first group with the first
    member of the second. *)
Lemma roundtrip_counterexample :
  let cidrs := replicate 1001 (lit "1.2.3.4/24") in
  Forall Grammar.cidr cidrs
  ∧ split (ch ",") (concat (pool_fields (group_file cidrs (lit "20240101") ∅)))
    ≠ cidrs.
Proof.
  split; [apply Forall_replicate, sample_cidr|].
  rewrite group_file_text. intros H.
  assert (length (split (ch ",") (concat (pool_fields
            (f (write_rest (fold_left add_cidr
                  (replicate 1001 (lit "1.2.3.4/24")) start))))))
          = 1000%nat) as Hl by (vm_compute; reflexivity).
  rewrite H, length_replicate in Hl. discriminate Hl.
Qed.

(** C2, amended: splitting the [addr_pool] field of each group on [,]
    and putting the members of the groups one after the other, in the
    order of the file, gives the input back. *)
Theorem roundtrip (cidrs : list str) (data_date : str) (fs : FS) :
  Forall Grammar.cidr cidrs →
  concat (split (ch ",") <$> pool_fields (group_file cidrs data_date fs)) = cidrs.
Proof.
  intros Hv.
  destruct (group_file_records cidrs data_date fs Hv)
    as (pools & Hc & Hs & Hg & Hn).
  assert (Forall valid_pool pools) as Hvp by (apply valid_pools; by rewrite Hc).
  unfold pool_fields. rewrite Hg, records_pool_fields by done.
  rewrite <- Hc. f_equal.
  pose proof (shape_nonempty _ Hs) as Hne. clear -Hvp Hne.
  induction Hvp as [|p ps Hp Hps IH]; [done|].
  apply Forall_cons in Hne as [Hne Hnes].
  cbn [fmap list_fmap]. destruct (pool_members p Hp Hne) as [_ ->].
  f_equal. by apply IH.
Qed.

Lemma roundtrip_witness :
  concat (split (ch ",")
            <$> pool_fields (group_file (replicate 1001 (lit "1.2.3.4/24"))
                                        (lit "20240101") ∅))
  = replicate 1001 (lit "1.2.3.4/24").
Proof. apply roundtrip. apply Forall_replicate, sample_cidr. Defined.

(** ** The ACL record *)

Lemma name_chars i : Forall name_char ([22269; 20869] ++ lit "IP-" ++ dec i).
Proof.
  rewrite !Forall_app. split_and!.
  - repeat constructor; vm_compute; congruence.
  - change (lit "IP-") with [73; 80; 45].
    repeat constructor; vm_compute; congruence.
  - eapply Forall_impl; [apply dec_digits|].
    intros c Hc. split; [by apply digit_plain|]. unfold is_digit in Hc. lia.
Qed.

Lemma names_plain n : Forall plain (join (lit ",") (names n)).
Proof.
  apply join_Forall; [apply plain_lit; vm_compute; reflexivity|].
  unfold names. rewrite Forall_fmap. apply Forall_forall. intros i _.
  eapply Forall_impl; [apply name_chars|]. by intros c [? _].
Qed.

Lemma names_split n :
  (0 < n)%nat → split (ch ",") (join (lit ",") (names n)) = names n.
Proof.
  intros Hn. apply (split_join 44).
  - unfold names. destruct n; [lia|done].
  - unfold names. rewrite Forall_fmap. apply Forall_forall. intros i _.
    intros Hin. pose proof (name_chars i) as Hc.
    rewrite Forall_forall in Hc. by destruct (Hc _ Hin).
Qed.

Lemma names_NoDup n : NoDup (names n).
Proof.
  unfold names. apply NoDup_fmap_2_strong; [|apply NoDup_seq].
  intros i j _ _ H. by apply app_inv_head, app_inv_head, dec_inj in H.
Qed.

Lemma acl_file_text n data_date fs :
  acl_file n data_date fs = acl_record n ++ nl.
Proof.
  unfold acl_file, generate_acl_rules, write_file.
  rewrite lookup_insert_eq. cbn [default]. unfold acl_record, names.
  by rewrite <- !app_assoc.
Qed.

Lemma acl_record_inline n : Forall inline (acl_record n).
Proof.
  unfold acl_record. pose proof (plain_inline _ (names_plain n)).
  rewrite !Forall_app. split_and!; try done;
    apply inline_lit; vm_compute; reflexivity.
Qed.

Lemma acl_file_lines n data_date fs :
  splitlines (acl_file n data_date fs) = [acl_record n].
Proof.
  rewrite acl_file_text. unfold splitlines.
  rewrite <- (app_nil_r nl), splitlines_go_line by apply acl_record_inline.
  done.
Qed.

Lemma acl_record_split n :
  ∃ rest,
    split (ch " ") (acl_record n)
    = [lit "id=60"; lit "enabled=yes";
       lit "comment=" ++ [20801; 35768; 22269; 20869] ++ lit "IP" ++ [35775; 38382];
       lit "action=accept"; lit "dir=forward"; lit "ctdir=1";
       lit "iinterface=any"; lit "ointerface=any";
       lit "src_addr=" ++ join (lit ",") (names n)] ++ rest.
Proof.
  exists (split (ch " ")
            (lit "dst_addr= src6_addr= dst6_addr= src6_mode=0 dst6_mode=0 src6_suffix= dst6_suffix= src6_mac= dst6_mac= protocol=any src_port= dst_port= week=1234567 time=00:00-23:59 ip_type=4")).
  assert (acl_record n
          = lit "id=60" ++ 32 :: lit "enabled=yes"
            ++ 32 :: (lit "comment=" ++ [20801; 35768; 22269; 20869] ++ lit "IP"
                      ++ [35775; 38382])
            ++ 32 :: lit "action=accept" ++ 32 :: lit "dir=forward"
            ++ 32 :: lit "ctdir=1" ++ 32 :: lit "iinterface=any"
            ++ 32 :: lit "ointerface=any"
            ++ 32 :: (lit "src_addr=" ++ join (lit ",") (names n))
            ++ 32 :: lit "dst_addr= src6_addr= dst6_addr= src6_mode=0 dst6_mode=0 src6_suffix= dst6_suffix= src6_mac= dst6_mac= protocol=any src_port= dst_port= week=1234567 time=00:00-23:59 ip_type=4")
    as ->.
  { unfold acl_record. rewrite <- !app_assoc. reflexivity. }
  change (ch " ") with 32. pose proof (names_plain n).
  rewrite !split_app_sep; [reflexivity|..];
    apply plain_no_space; rewrite ?Forall_app; split_and?; try done;
      apply plain_lit; vm_compute; reflexivity.
Qed.

Lemma acl_record_fields n :
  field "id" (acl_record n) = Some (lit "60")
  ∧ field "src_addr" (acl_record n) = Some (join (lit ",") (names n)).
Proof.
  unfold field. destruct (acl_record_split n) as [rest ->].
  split; reflexivity.
Qed.

(** C6: for a positive number of groups, the ACL file is one line whose
    [src_addr] field is the names of the groups 1 to N joined by commas,
    in order, each once; they are the names the group file carries. *)
Theorem acl_src_addr (num_groups : nat) (data_date : str) (fs : FS) :
  (0 < num_groups)%nat →
  let group_names :=
    (λ i, [22269; 20869] ++ lit "IP-" ++ dec i) <$> seq 1 num_groups in
  (∃ line src_addr,
     splitlines (acl_file num_groups data_date fs) = [line]
     ∧ field "src_addr" line = Some src_addr
     ∧ src_addr = join (lit ",") group_names
     ∧ split (ch ",") src_addr = group_names)
  ∧ length group_names = num_groups
  ∧ NoDup group_names
  ∧ (∀ cidrs date fs',
       Forall Grammar.cidr cidrs →
       (generate_ip_groups cidrs date fs').2.2 = num_groups →
       field "group_name" <$> splitlines (group_file cidrs date fs')
       = Some <$> group_names).
Proof.
  intros Hn group_names. fold (names num_groups) in group_names.
  split_and!.
  - exists (acl_record num_groups), (join (lit ",") (names num_groups)).
    split_and!; [apply acl_file_lines|apply acl_record_fields|done|].
    by apply names_split.
  - subst group_names. unfold names. by rewrite length_fmap, length_seq.
  - apply names_NoDup.
  - intros cidrs date fs' Hv Htotal.
    destruct (group_file_records cidrs date fs' Hv)
      as (pools & Hc & Hs & Hg & Hlen).
    rewrite Hg, records_names by (apply valid_pools; by rewrite Hc).
    rewrite <- Hlen, Htotal. subst group_names. unfold names.
    by rewrite <- list_fmap_compose.
Qed.

Lemma acl_src_addr_witness :
  ∃ line src_addr,
    splitlines (acl_file 3 (lit "20240101") ∅) = [line]
    ∧ field "src_addr" line = Some src_addr
    ∧ src_addr
      = join (lit ",")
          ((λ i, [22269; 20869] ++ lit "IP-" ++ dec i) <$> seq 1 3)
    ∧ split (ch ",") src_addr
      = (λ i, [22269; 20869] ++ lit "IP-" ++ dec i) <$> seq 1 3.
Proof.
  refine (proj1 (acl_src_addr 3 (lit "20240101") ∅ _)). lia.
Defined.

(** C9: the ACL record carries [id=60], and so does the first record of
    the group file whenever there is one. *)
Theorem acl_id_is_first_group_id
    (num_groups : nat) (data_date : str) (fs : FS)
    (cidrs : list str) (date' : str) (fs' : FS) :
  Forall Grammar.cidr cidrs → cidrs ≠ [] →
  ∃ rule first others,
    splitlines (acl_file num_groups data_date fs) = [rule]
    ∧ splitlines (group_file cidrs date' fs') = first :: others
    ∧ field "id" rule = Some (lit "60")
    ∧ field "id" first = field "id" rule.
Proof.
  intros Hv Hne.
  destruct (group_file_records cidrs date' fs' Hv)
    as (pools & Hc & Hs & Hg & Hlen).
  destruct pools as [|p ps]; [by subst cidrs|].
  assert (valid_pool p) as Hp.
  { rewrite <- Hc in Hv. cbn [concat] in Hv. by apply Forall_app in Hv as [? _]. }
  exists (acl_record num_groups), (group_line 60 1 p), (records 61 2 ps).
  split_and!; [apply acl_file_lines|done|apply acl_record_fields|].
  destruct (group_line_fields 60 1 p Hp) as (-> & _ & _).
  by destruct (acl_record_fields num_groups) as [-> _].
Qed.

Lemma acl_id_is_first_group_id_witness :
  ∃ rule first others,
    splitlines (acl_file 1 (lit "20240101") ∅) = [rule]
    ∧ splitlines (group_file [lit "1.2.3.4/24"] (lit "20240101") ∅)
      = first :: others
    ∧ field "id" rule = Some (lit "60")
    ∧ field "id" first = field "id" rule.
Proof.
  apply acl_id_is_first_group_id; [|done].
  apply Forall_singleton, sample_cidr.
Defined.

(** C8: the run date reaches only the names of the two files: the text
    written to each, hence every id, number and name in it, and the
    number of groups are the same for any two dates, and no other file
    is touched. *)
Theorem date_noninterference
    (cidrs : list str) (num_groups : nat) (date1 date2 : str) (fs1 fs2 : FS) :
  group_file cidrs date1 fs1 = group_file cidrs date2 fs2
  ∧ (generate_ip_groups cidrs date1 fs1).2.2
    = (generate_ip_groups cidrs date2 fs2).2.2
  ∧ field "id" <$> splitlines (group_file cidrs date1 fs1)
    = field "id" <$> splitlines (group_file cidrs date2 fs2)
  ∧ field "group_name" <$> splitlines (group_file cidrs date1 fs1)
    = field "group_name" <$> splitlines (group_file cidrs date2 fs2)
  ∧ acl_file num_groups date1 fs1 = acl_file num_groups date2 fs2
  ∧ (generate_ip_groups cidrs date1 fs1).2.1
    = lit "domestic_ikuai_ipgroup-" ++ date1 ++ lit ".txt"
  ∧ (generate_acl_rules num_groups date1 fs1).2
    = lit "domestic_ikuai_acl-" ++ date1 ++ lit ".txt"
  ∧ (∀ path, path ≠ (generate_ip_groups cidrs date1 fs1).2.1 →
       (generate_ip_groups cidrs date1 fs1).1 !! path = fs1 !! path)
  ∧ (∀ path, path ≠ (generate_acl_rules num_groups date1 fs1).2 →
       (generate_acl_rules num_groups date1 fs1).1 !! path = fs1 !! path).
Proof.
  rewrite !group_file_text, !acl_file_text. split_and!; try done.
  - intros path Hp. unfold generate_ip_groups, write_file, remove, path_exists in *.
    cbn [fst snd] in *. rewrite lookup_insert_ne by done.
    case_bool_decide; [by rewrite lookup_delete_ne|done].
  - intros path Hp. unfold generate_acl_rules, write_file, remove, path_exists in *.
    cbn [fst snd] in *. rewrite lookup_insert_ne by done.
    case_bool_decide; [by rewrite lookup_delete_ne|done].
Qed.

Lemma no_groups_no_cidrs cidrs data_date fs :
  (generate_ip_groups cidrs data_date fs).2.2 = 0%nat → cidrs = [].
Proof.
  unfold generate_ip_groups. cbn [fst snd]. fold start.
  destruct (partition cidrs) as (pools & Hc & _ & _ & Hn).
  rewrite Hn. intros Hl. apply length_zero_iff_nil in Hl. by subst.
Qed.

(** C7: when the request fails or no line is a valid CIDR, [main] stops
    at once and the files are as they were; when no group is written it
    stops without an ACL file; with a run date at hand, [main] always
    returns. *)
Theorem empty_result_handling
    (utcnow : datetime) (data_date : str) (response : option str) (fs : FS) :
  get_data_date utcnow = Some data_date →
  fetch_domestic_cidrs None = []
  ∧ (fetch_domestic_cidrs response = [] →
       main utcnow response fs = Some (fs, NoCidrs))
  ∧ (∀ fs' result,
       main utcnow response fs = Some (fs', result) →
       (generate_ip_groups (fetch_domestic_cidrs response) data_date fs).2.2
       = 0%nat →
       (result = NoCidrs ∨ result = NoGroups)
       ∧ fs' !! (lit "domestic_ikuai_acl-" ++ data_date ++ lit ".txt")
         = fs !! (lit "domestic_ikuai_acl-" ++ data_date ++ lit ".txt"))
  ∧ is_Some (main utcnow response fs).
Proof.
  intros Hd. unfold main. rewrite Hd. cbn [mbind option_bind].
  split_and!.
  - done.
  - by intros ->.
  - intros fs' result Hm H0. apply no_groups_no_cidrs in H0.
    rewrite H0 in Hm. injection Hm as <- <-. auto.
  - destruct (fetch_domestic_cidrs response) as [|c cs]; [done|].
    destruct (generate_ip_groups (c :: cs) data_date fs) as [fs1 [gf n]].
    destruct (n =? 0)%nat; [done|].
    by destruct (generate_acl_rules n data_date fs1).
Qed.

Lemma empty_result_handling_witness :
  main (DateTime 2024 2 28 23 59 59 999999) (Some (lit "# nothing here")) ∅
  = Some (∅, NoCidrs).
Proof.
  refine (proj1 (proj2 (empty_result_handling
    (DateTime 2024 2 28 23 59 59 999999) (lit "20240229")
    (Some (lit "# nothing here")) ∅ _)) _);
    vm_compute; reflexivity.
Defined.

(** ** The run date *)

Section Dates.

Local Open Scope Z_scope.

Example ord2ymd_example :
  ord2ymd 738000 = (2021, 7, 29) /\ ymd2ord 2021 7 29 = 738000
  /\ ymd2ord 9999 12 31 = MAXORDINAL /\ ord2ymd 730120 = (2000, 1, 1)
  /\ ord2ymd 730119 = (1999, 12, 31).
Proof. vm_compute. repeat split. Qed.

Example get_data_date_example :
  get_data_date (DateTime 2024 2 28 23 59 59 999999) = Some (lit "20240229")
  /\ get_data_date (DateTime 2023 12 31 0 0 0 0) = Some (lit "20240101")
  /\ get_data_date (DateTime 9999 12 31 0 0 0 0) = None.
Proof. vm_compute. repeat split. Qed.

Ltac divmod := Z.div_mod_to_equations; lia.

Lemma is_leap_spec y : is_leap y = true ↔ leap_year y.
Proof.
  unfold is_leap, leap_year.
  rewrite andb_true_iff, orb_true_iff, negb_true_iff, !Z.eqb_eq, Z.eqb_neq.
  split; [tauto|]. intros [?|H]; [tauto|].
  split; [|tauto]. divmod.
Qed.

Lemma is_leap_decide y : is_leap y = bool_decide (leap_year y).
Proof.
  destruct (is_leap y) eqn:H.
  - symmetry. apply bool_decide_eq_true, is_leap_spec, H.
  - symmetry. apply bool_decide_eq_false. rewrite <- is_leap_spec. congruence.
Qed.

Lemma month_cases m :
  1 ≤ m ≤ 12 →
  m = 1 ∨ m = 2 ∨ m = 3 ∨ m = 4 ∨ m = 5 ∨ m = 6 ∨ m = 7 ∨ m = 8 ∨ m = 9
  ∨ m = 10 ∨ m = 11 ∨ m = 12.
Proof. lia. Qed.

(** Evaluate the closed arithmetic and the table look-ups of a goal. *)
Ltac zred :=
  repeat match goal with
  | |- context [Z.add (Zpos ?a) (Zpos ?b)] =>
      let v := eval vm_compute in (Z.add (Zpos a) (Zpos b)) in
      change (Z.add (Zpos a) (Zpos b)) with v
  | |- context [Z.sub (Zpos ?a) (Zpos ?b)] =>
      let v := eval vm_compute in (Z.sub (Zpos a) (Zpos b)) in
      change (Z.sub (Zpos a) (Zpos b)) with v
  | |- context [table ?t (Zpos ?p)] =>
      let v := eval vm_compute in (table t (Zpos p)) in
      change (table t (Zpos p)) with v
  | |- context [Z.ltb (Zpos ?a) (Zpos ?b)] =>
      let v := eval vm_compute in (Z.ltb (Zpos a) (Zpos b)) in
      change (Z.ltb (Zpos a) (Zpos b)) with v
  | |- context [Z.eqb (Zpos ?a) (Zpos ?b)] =>
      let v := eval vm_compute in (Z.eqb (Zpos a) (Zpos b)) in
      change (Z.eqb (Zpos a) (Zpos b)) with v
  end; cbv beta iota; cbn [andb orb negb].

Ltac by_month H :=
  apply month_cases in H;
  repeat (destruct H as [->|H]); [..|subst].

Lemma days_in_month_spec y m :
  1 ≤ m ≤ 12 → days_in_month y m = month_length y m.
Proof.
  intros Hm. unfold days_in_month, month_length. rewrite is_leap_decide.
  by_month Hm; try reflexivity.
  zred. destruct (decide (leap_year y)).
  - by rewrite bool_decide_eq_true_2.
  - by rewrite bool_decide_eq_false_2.
Qed.

Lemma days_before_year_succ y :
  days_before_year (y + 1)
  = days_before_year y + (if is_leap y then 366 else 365).
Proof.
  unfold days_before_year, is_leap. replace (y + 1 - 1) with y by lia.
  destruct (Z.eqb_spec (y mod 4) 0) as [H4|H4];
    destruct (Z.eqb_spec (y mod 100) 0) as [H100|H100];
    destruct (Z.eqb_spec (y mod 400) 0) as [H400|H400];
    cbn [negb andb orb]; divmod.
Qed.

Lemma ymd2ord_tomorrow y m d :
  valid_date y m d →
  ∀ y' m' d', tomorrow y m d = (y', m', d') →
  ymd2ord y' m' d' = ymd2ord y m d + 1
  ∧ 1 ≤ m' ≤ 12 ∧ 1 ≤ d' ≤ month_length y' m' ∧ y ≤ y' ≤ y + 1.
Proof.
  intros (Hy & Hm & Hd) y' m' d'. unfold tomorrow, ymd2ord.
  destruct (decide (d < month_length y m)) as [Hlt|Hge].
  { intros [= <- <- <-]. lia. }
  assert (d = month_length y m) as -> by lia. clear Hd Hge.
  destruct (decide (m < 12)) as [Hm12|Hm12].
  - intros [= <- <- <-]. unfold days_before_month, month_length.
    rewrite is_leap_decide.
    assert (1 ≤ m ≤ 11) as Hm' by lia. clear Hm Hm12.
    assert (m = 1 ∨ m = 2 ∨ m = 3 ∨ m = 4 ∨ m = 5 ∨ m = 6 ∨ m = 7 ∨ m = 8
            ∨ m = 9 ∨ m = 10 ∨ m = 11) as Hc by lia.
    repeat (destruct Hc as [->|Hc]); [..|subst];
      zred; destruct (decide (leap_year y));
      rewrite ?bool_decide_eq_true_2, ?bool_decide_eq_false_2 by done;
      zred; lia.
  - intros [= <- <- <-]. assert (m = 12) as -> by lia.
    rewrite days_before_year_succ. unfold days_before_month, month_length.
    zred. destruct (is_leap y); zred; lia.
Qed.

Lemma ord2ymd_unfold ord :
  ord2ymd ord
  = let n0 := ord - 1 in
    let n400 := n0 / 146097 in
    let r400 := n0 mod 146097 in
    let n100 := r400 / 36524 in
    let r100 := r400 mod 36524 in
    let n4 := r100 / 1461 in
    let r4 := r100 mod 1461 in
    let n1 := r4 / 365 in
    let n := r4 mod 365 in
    let y := n400 * 400 + 1 + n100 * 100 + n4 * 4 + n1 in
    if (n1 =? 4) || (n100 =? 4) then (y - 1, 12, 31)
    else
      let leapyear := (n1 =? 3) && (negb (n4 =? 24) || (n100 =? 3)) in
      (y, (month_day leapyear n).1, (month_day leapyear n).2).
Proof.
  unfold ord2ymd, month_day, DI400Y, DI100Y, DI4Y. cbv zeta.
  destruct (_ || _); [done|]. by destruct (_ <? _).
Qed.

Lemma month_day_spec (leap : bool) m d :
  1 ≤ m ≤ 12 →
  1 ≤ d ≤ table DAYS_IN_MONTH m + (if (m =? 2) && leap then 1 else 0) →
  month_day leap
    (table DAYS_BEFORE_MONTH m + (if (2 <? m) && leap then 1 else 0) + d - 1)
  = (m, d).
Proof.
  intros Hm. unfold month_day. cbv zeta. rewrite Z.shiftr_div_pow2 by lia.
  change (2 ^ 5) with 32.
  by_month Hm; destruct leap; zred; intros Hd;
    match goal with
    | |- context [?n / 32] =>
        assert (n / 32 = 1 ∨ n / 32 = 2 ∨ n / 32 = 3 ∨ n / 32 = 4
                ∨ n / 32 = 5 ∨ n / 32 = 6 ∨ n / 32 = 7 ∨ n / 32 = 8
                ∨ n / 32 = 9 ∨ n / 32 = 10 ∨ n / 32 = 11 ∨ n / 32 = 12)
          as Hk by divmod;
        repeat (destruct Hk as [Hk|Hk]);
        try (exfalso; divmod); rewrite Hk; zred
    end;
    repeat match goal with
           | |- context [Z.ltb ?a ?b] => destruct (Z.ltb_spec a b)
           end;
    try lia; try (f_equal; lia).
Qed.

(** The first half of [ord2ymd] reads the digits of the ordinal in the
    mixed radix of the cycles of 400, 100, 4 and 1 years. *)
Lemma ord2ymd_of_parts a n100 n4 n1 n :
  0 ≤ n < 365 → 0 ≤ n1 → 365 * n1 + n < 1461 →
  0 ≤ n4 → 1461 * n4 + 365 * n1 + n < 36524 →
  0 ≤ n100 → 36524 * n100 + 1461 * n4 + 365 * n1 + n < 146097 →
  ord2ymd (146097 * a + 36524 * n100 + 1461 * n4 + 365 * n1 + n + 1)
  = let y := a * 400 + 1 + n100 * 100 + n4 * 4 + n1 in
    if (n1 =? 4) || (n100 =? 4) then (y - 1, 12, 31)
    else
      let leapyear := (n1 =? 3) && (negb (n4 =? 24) || (n100 =? 3)) in
      (y, (month_day leapyear n).1, (month_day leapyear n).2).
Proof.
  intros Hn Hn1 H4 Hn4 H100 Hn100 H400. rewrite ord2ymd_unfold.
  set (n0 := _ - 1).
  assert (n0 / 146097 = a) as E400 by (subst n0; divmod).
  assert (n0 mod 146097 = 36524 * n100 + 1461 * n4 + 365 * n1 + n) as M400
    by (subst n0; divmod).
  cbv zeta. rewrite E400, M400. clear E400 M400 n0.
  set (r := 36524 * n100 + _ + _ + _).
  assert (r / 36524 = n100) as E100 by (subst r; divmod).
  assert (r mod 36524 = 1461 * n4 + 365 * n1 + n) as M100 by (subst r; divmod).
  rewrite E100, M100. clear E100 M100 r.
  set (r := 1461 * n4 + _ + _).
  assert (r / 1461 = n4) as E4 by (subst r; divmod).
  assert (r mod 1461 = 365 * n1 + n) as M4 by (subst r; divmod).
  rewrite E4, M4. clear E4 M4 r.
  set (r := 365 * n1 + _).
  assert (r / 365 = n1) as E1 by (subst r; divmod).
  assert (r mod 365 = n) as M1 by (subst r; divmod).
  rewrite E1, M1. done.
Qed.

Lemma year_split y :
  1 ≤ y →
  ∃ a b c e,
    0 ≤ a ∧ 0 ≤ b < 4 ∧ 0 ≤ c < 25 ∧ 0 ≤ e < 4
    ∧ y = 400 * a + 100 * b + 4 * c + e + 1
    ∧ days_before_year y = 146097 * a + 36524 * b + 1461 * c + 365 * e
    ∧ is_leap y = (e =? 3) && (negb (c =? 24) || (b =? 3)).
Proof.
  intros Hy.
  exists ((y - 1) / 400), ((y - 1) mod 400 / 100), ((y - 1) mod 100 / 4),
         ((y - 1) mod 4).
  split_and!; try divmod.
  - unfold days_before_year. cbv zeta. divmod.
  - unfold is_leap.
    repeat match goal with
           | |- context [Z.eqb ?u ?v] => destruct (Z.eqb_spec u v)
           end; cbn [andb orb negb]; try reflexivity; exfalso; divmod.
Qed.

Lemma day_of_year_bound y m d :
  1 ≤ m ≤ 12 → 1 ≤ d ≤ days_in_month y m →
  0 ≤ days_before_month y m + d - 1 < 365 + (if is_leap y then 1 else 0).
Proof.
  intros Hm. unfold days_in_month, days_before_month.
  by_month Hm; destruct (is_leap y); zred; lia.
Qed.

Lemma month_day_last : month_day true 365 = (12, 31).
Proof. reflexivity. Qed.

Lemma ord2ymd_ymd2ord y m d :
  1 ≤ y → 1 ≤ m ≤ 12 → 1 ≤ d ≤ days_in_month y m →
  ord2ymd (ymd2ord y m d) = (y, m, d).
Proof.
  intros Hy Hm Hd.
  pose proof (day_of_year_bound y m d Hm Hd) as Hk.
  pose proof (month_day_spec (is_leap y) m d Hm) as Hmd.
  assert (1 ≤ d ≤ table DAYS_IN_MONTH m + (if (m =? 2) && is_leap y then 1 else 0))
    as Hd'.
  { revert Hd. unfold days_in_month.
    destruct (Z.eqb_spec m 2) as [->|]; destruct (is_leap y);
      cbn [andb]; change (table DAYS_IN_MONTH 2) with 28; lia. }
  specialize (Hmd Hd'). unfold ymd2ord.
  fold (days_before_month y m) in Hmd.
  set (k := days_before_month y m + d - 1) in *.
  destruct (year_split y Hy) as (a & b & c & e & Ha & Hb & Hc & He & Ey & Ed & El).
  rewrite Ed. rewrite El in Hk, Hmd.
  set (leap := (e =? 3) && (negb (c =? 24) || (b =? 3))) in *.
  destruct (decide (k = 365)) as [E365|N365].
  - assert (leap = true) as Hleap by (destruct leap; [done|lia]).
    assert (e = 3) as -> by (subst leap; destruct (Z.eqb_spec e 3); done).
    rewrite Hleap, E365, month_day_last in Hmd. injection Hmd as <- <-.
    destruct (decide (c = 24)) as [->|Hc24].
    + assert (b = 3) as ->.
      { subst leap. cbn in Hleap. destruct (Z.eqb_spec b 3); done. }
      replace (146097 * a + 36524 * 3 + 1461 * 24 + 365 * 3
               + days_before_month y 12 + 31)
        with (146097 * a + 36524 * 4 + 1461 * 0 + 365 * 0 + 0 + 1) by lia.
      rewrite ord2ymd_of_parts by lia. cbn. f_equal. f_equal. lia.
    + replace (146097 * a + 36524 * b + 1461 * c + 365 * 3
               + days_before_month y 12 + 31)
        with (146097 * a + 36524 * b + 1461 * c + 365 * 4 + 0 + 1) by lia.
      rewrite ord2ymd_of_parts by lia. cbn. f_equal. f_equal. lia.
  - replace (146097 * a + 36524 * b + 1461 * c + 365 * e
             + days_before_month y m + d)
      with (146097 * a + 36524 * b + 1461 * c + 365 * e + k + 1) by lia.
    assert (0 ≤ k < 365) as Hk' by (destruct leap; lia).
    rewrite ord2ymd_of_parts by lia. cbv zeta.
    destruct (Z.eqb_spec e 4); [lia|]. destruct (Z.eqb_spec b 4); [lia|].
    cbn [orb]. fold leap. rewrite Hmd. cbn [fst snd]. f_equal. f_equal. lia.
Qed.

Lemma days_before_year_nonneg y : 1 ≤ y → 0 ≤ days_before_year y.
Proof. intros Hy. unfold days_before_year. cbv zeta. divmod. Qed.

Lemma ymd2ord_range y m d :
  1 ≤ y ≤ 9999 → 1 ≤ m ≤ 12 → 1 ≤ d ≤ days_in_month y m →
  1 ≤ ymd2ord y m d ≤ MAXORDINAL.
Proof.
  intros Hy Hm Hd. pose proof (day_of_year_bound y m d Hm Hd) as Hk.
  pose proof (days_before_year_nonneg y (proj1 Hy)) as H0.
  unfold ymd2ord, MAXORDINAL. split; [lia|].
  destruct (decide (y = 9999)) as [->|Hne].
  - change (is_leap 9999) with false in Hk.
    change (days_before_year 9999) with 3651694. lia.
  - assert (days_before_year y ≤ 3651400)
      by (unfold days_before_year; cbv zeta; divmod).
    destruct (is_leap y); lia.
Qed.

(** Adding one day to a reading of the clock moves its ordinal by one and
    leaves the time of day alone. *)
Lemma add_one_day ord h mi s us :
  0 ≤ h < 24 → 0 ≤ mi < 60 → 0 ≤ s < 60 → 0 ≤ us < 1000000 →
  days (timedelta_add (mk_timedelta ord h mi s us) (mk_timedelta 1 0 0 0 0))
  = ord + 1.
Proof.
  intros Hh Hmi Hs Hus. unfold timedelta_add, mk_timedelta. cbn [days seconds microseconds].
  change (((1 * 86400 + 0 * 3600 + 0 * 60 + 0) * 1000000 + 0) / 86400000000) with 1.
  change (((1 * 86400 + 0 * 3600 + 0 * 60 + 0) * 1000000 + 0) / 1000000 mod 86400) with 0.
  change (((1 * 86400 + 0 * 3600 + 0 * 60 + 0) * 1000000 + 0) mod 1000000) with 0.
  set (tot := (ord * 86400 + h * 3600 + mi * 60 + s) * 1000000 + us).
  assert (tot / 86400000000 = ord) as -> by (subst tot; divmod).
  assert (tot / 1000000 mod 86400 = h * 3600 + mi * 60 + s) as ->
    by (subst tot; divmod).
  assert (tot mod 1000000 = us) as -> by (subst tot; divmod).
  divmod.
Qed.

Lemma datetime_add_one_day t y m d :
  valid_datetime t →
  tomorrow (year t) (month t) (day t) = (y, m, d) →
  y ≤ 9999 →
  ∃ h mi s us,
    datetime_add t (mk_timedelta 1 0 0 0 0) = Some (DateTime y m d h mi s us).
Proof.
  intros (Hv & Hh & Hmi & Hs & Hus) Ht Hy.
  destruct (ymd2ord_tomorrow _ _ _ Hv _ _ _ Ht) as (Hord & Hm' & Hd' & Hy').
  destruct Hv as (Hyr & Hmo & Hda).
  unfold datetime_add. cbv zeta.
  rewrite (add_one_day _ _ _ _ _ Hh Hmi Hs Hus). unfold toordinal.
  rewrite <- Hord.
  rewrite <- days_in_month_spec in Hd' by done.
  pose proof (ymd2ord_range y m d ltac:(lia) Hm' Hd') as Hr.
  destruct (Z.ltb_spec 0 (ymd2ord y m d)); [|lia].
  destruct (Z.leb_spec (ymd2ord y m d) MAXORDINAL); [|lia].
  cbn [andb]. rewrite ord2ymd_ymd2ord by (done || lia). eauto.
Qed.













End Dates.

(** * Further properties *)

(** ** Further properties of the validator *)

Lemma fetch_valid response : Forall Grammar.cidr (fetch_domestic_cidrs response).
Proof.
  destruct response as [text|]; cbn [fetch_domestic_cidrs]; [|constructor].
  rewrite scan_text_cidrs. apply Forall_forall.
  intros s [[_ Hm] (raw & -> & _)%list_elem_of_fmap]%list_elem_of_filter.
  by apply re_match_trimmed.
Qed.

Lemma cidr_length s : Grammar.cidr s → (9 ≤ length s ≤ 18)%nat.
Proof.
  intros (A & B & C & D & M & -> & HA & HB & HC & HD & HM).
  apply octet_range in HA as (HA & _), HB as (HB & _), HC as (HC & _),
    HD as (HD & _).
  apply mask_range in HM as (HM & _).
  rewrite !length_app. change (length (lit ".")) with 1%nat.
  change (length (lit "/")) with 1%nat. lia.
Qed.

Lemma cidr_char_nospace c : cidr_char c → isspace c = false.
Proof.
  unfold cidr_char, is_digit, isspace. intros Hc.
  repeat match goal with
         | |- context [?a <=? ?b] => destruct (N.leb_spec a b); try lia
         | |- context [?a =? ?b] => destruct (N.eqb_spec a b); try lia
         end; done.
Qed.

(** X1: whatever the request yields, every string returned is made of
    digits, dots and slashes only, 9 to 18 of them: none holds a comma,
    a space or a line break, the separators of the two files. *)
Theorem output_alphabet (response : option str) (s : str) :
  s ∈ fetch_domestic_cidrs response →
  (9 ≤ length s ≤ 18)%nat
  ∧ Forall (λ c, is_digit c ∨ c = ch "." ∨ c = ch "/") s
  ∧ (ch "," ∉ s) ∧ (ch " " ∉ s)
  ∧ Forall (λ c, isspace c = false ∧ islinebreak c = false) s.
Proof.
  intros Hs. pose proof (fetch_valid response) as Hv.
  rewrite Forall_forall in Hv. specialize (Hv s Hs).
  destruct (cidr_chars s Hv) as [_ Hc].
  split; [by apply cidr_length|]. split_and!.
  - exact Hc.
  - apply (cidr_char_not _ _ Hc). not_cidr_char.
  - apply (cidr_char_not _ _ Hc). not_cidr_char.
  - eapply Forall_impl; [exact Hc|]. intros c Hcc.
    split; [by apply cidr_char_nospace|]. by apply cidr_char_plain.
Qed.

Lemma output_alphabet_witness :
  (9 ≤ length (lit "1.2.3.4/24") ≤ 18)%nat
  ∧ Forall (λ c, is_digit c ∨ c = ch "." ∨ c = ch "/") (lit "1.2.3.4/24")
  ∧ (ch "," ∉ lit "1.2.3.4/24") ∧ (ch " " ∉ lit "1.2.3.4/24")
  ∧ Forall (λ c, isspace c = false ∧ islinebreak c = false) (lit "1.2.3.4/24").
Proof.
  apply (output_alphabet (Some (lit " 1.2.3.4/24" ++ nl))).
  vm_compute. apply list_elem_of_here.
Defined.

(** X2: the pattern by itself accepts the strings of the grammar and
    those strings followed by one line feed, and nothing else. *)
Theorem cidr_pattern_accepts (s : str) :
  re_match cidr_pattern s = true ↔
  Grammar.cidr s ∨ ∃ w, s = w ++ nl ∧ Grammar.cidr w.
Proof. apply re_match_cidr. Qed.

(** X3: a skipped-line report [(n, l)] is made exactly when line [n] of
    the text, counted from 1 with blank and comment lines included,
    trims to a line [l] that is neither blank nor a comment and does not
    match the grammar. *)
Theorem skipped_reports (text : str) (n : nat) (l : str) :
  (n, l) ∈ skipped (scan_text text) ↔
  ∃ raw,
    (1 ≤ n)%nat ∧ splitlines text !! (n - 1)%nat = Some raw ∧ l = strip raw
    ∧ candidate l ∧ ¬ Grammar.cidr l.
Proof.
  rewrite scan_text_skipped, list_elem_of_filter, elem_of_enumerate.
  unfold rejected. cbn [snd]. split.
  - intros [[Hc Hm] (j & -> & Hj)].
    rewrite list_lookup_fmap in Hj.
    destruct (splitlines text !! j) as [raw|] eqn:Hraw; [|done].
    injection Hj as <-. exists raw.
    replace (1 + j - 1)%nat with j by lia. split_and!; [lia|done..|].
    rewrite <- re_match_trimmed. congruence.
  - intros (raw & Hn & Hraw & -> & Hc & Hm). split.
    + split; [done|]. rewrite <- re_match_trimmed in Hm.
      by destruct (re_match cidr_pattern (strip raw)).
    + exists (n - 1)%nat. split; [lia|]. by rewrite list_lookup_fmap, Hraw.
Qed.

(** X4: every trimmed line that is neither blank nor a comment is either
    returned or reported as skipped, once: the two counts add up to the
    number of such lines. *)
Theorem scan_accounts_for_every_line (text : str) :
  (length (cidrs (scan_text text)) + length (skipped (scan_text text)))%nat
  = length (filter candidate (strip <$> splitlines text)).
Proof.
  rewrite scan_text_cidrs, scan_text_skipped.
  rewrite <- (length_fmap snd (filter rejected _)), skipped_lines.
  induction (strip <$> splitlines text) as [|x l IH]; [done|].
  rewrite !filter_cons.
  destruct (decide (candidate x)) as [Hc|Hc].
  - destruct (re_match cidr_pattern x) eqn:Hm.
    + rewrite decide_True by done.
      rewrite decide_False by (unfold unmatched; rewrite Hm; intuition discriminate).
      cbn [length]. lia.
    + rewrite decide_False by (unfold accepted; rewrite Hm; intuition discriminate).
      rewrite decide_True by done.
      cbn [length]. lia.
  - rewrite !decide_False; [done|..]; unfold unmatched, accepted; tauto.
Qed.

Lemma strip_id s : Forall (λ c, isspace c = false) s → strip s = s.
Proof.
  intros Hs. unfold strip, rstrip.
  assert (∀ t, Forall (λ c, isspace c = false) t → lstrip t = t) as Hl.
  { intros t Ht. destruct Ht as [|c t Hc _]; [done|]. cbn. by rewrite Hc. }
  rewrite (Hl s Hs), Hl, rev_involutive; [done|].
  by apply List.Forall_rev.
Qed.

Lemma splitlines_lines (l : list (list N)) :
  Forall (Forall inline) l →
  splitlines (concat ((λ s, s ++ nl) <$> l)) = l.
Proof.
  unfold splitlines. induction 1 as [|s l Hs Hl IH]; [done|].
  cbn [fmap list_fmap concat]. rewrite <- app_assoc.
  by rewrite splitlines_go_line, IH.
Qed.

(** X5: a list of strings of the grammar, written one to a line, is read
    back as it is: the validator returns its own output unchanged. *)
Theorem validator_round_trip (l : list str) :
  Forall Grammar.cidr l →
  fetch_domestic_cidrs (Some (concat ((λ s, s ++ nl) <$> l))) = l.
Proof.
  intros Hl. cbn [fetch_domestic_cidrs]. rewrite scan_text_cidrs.
  rewrite splitlines_lines.
  2:{ eapply Forall_impl; [exact Hl|]. intros s [_ Hs]%cidr_chars.
      apply plain_inline. eapply Forall_impl; [exact Hs|]. apply cidr_char_plain. }
  induction Hl as [|s l Hs Hl IH]; [done|].
  assert (strip s = s) as Hst.
  { apply strip_id. destruct (cidr_chars s Hs) as [_ Hc].
    eapply Forall_impl; [exact Hc|]. apply cidr_char_nospace. }
  cbn [fmap list_fmap]. rewrite filter_cons, Hst, decide_True; [by rewrite IH|].
  split; [by apply cidr_candidate|].
  rewrite <- Hst. by apply re_match_trimmed; rewrite Hst.
Qed.

Lemma validator_round_trip_witness :
  fetch_domestic_cidrs
    (Some (concat ((λ s, s ++ nl) <$> [lit "1.2.3.4/24"; lit "1.2.3.4/24"])))
  = [lit "1.2.3.4/24"; lit "1.2.3.4/24"].
Proof.
  apply validator_round_trip. repeat constructor; apply sample_cidr.
Defined.

Lemma lstrip_app_spaces pre s :
  Forall (λ c, isspace c = true) pre → lstrip (pre ++ s) = lstrip s.
Proof. induction 1 as [|c pre Hc _ IH]; cbn [app lstrip]; [done|]. by rewrite Hc. Qed.

Lemma lstrip_keep c s : isspace c = false → lstrip (c :: s) = c :: s.
Proof. intros Hc. cbn. by rewrite Hc. Qed.

Lemma strip_padded pre s post :
  Forall (λ c, isspace c = true) pre → Forall (λ c, isspace c = true) post →
  s ≠ [] → Forall (λ c, isspace c = false) s →
  strip (pre ++ s ++ post) = s.
Proof.
  intros Hpre Hpost Hne Hs. unfold strip, rstrip.
  rewrite (lstrip_app_spaces _ _ Hpre).
  destruct s as [|c s]; [done|]. apply Forall_cons in Hs as [Hc Hs].
  cbn [app]. rewrite (lstrip_keep _ _ Hc).
  change (c :: s ++ post) with ((c :: s) ++ post).
  rewrite rev_app_distr, lstrip_app_spaces by (by apply List.Forall_rev).
  destruct (rev (c :: s)) as [|x r] eqn:Hr.
  { apply (f_equal (@length N)) in Hr. rewrite length_rev in Hr. done. }
  assert (isspace x = false) as Hx.
  { assert (Forall (λ c, isspace c = false) (x :: r)) as Hxr
      by (rewrite <- Hr; apply List.Forall_rev; by constructor).
    by apply Forall_cons in Hxr as [? _]. }
  by rewrite (lstrip_keep _ _ Hx), <- Hr, rev_involutive.
Qed.

(** X15: white space around a CIDR on its line does not count: a line
    made of a string of the grammar between blanks that end no line is
    returned as that string, without the blanks. *)
Theorem padding_is_trimmed (pre s post : str) :
  Grammar.cidr s →
  Forall (λ c, isspace c = true ∧ islinebreak c = false) pre →
  Forall (λ c, isspace c = true ∧ islinebreak c = false) post →
  fetch_domestic_cidrs (Some (pre ++ s ++ post ++ nl)) = [s].
Proof.
  intros Hs Hpre Hpost. destruct (cidr_chars s Hs) as [Hne Hc].
  cbn [fetch_domestic_cidrs]. rewrite scan_text_cidrs.
  assert (splitlines (pre ++ s ++ post ++ nl) = [pre ++ s ++ post]) as ->.
  { unfold splitlines.
    replace (pre ++ s ++ post ++ nl) with ((pre ++ s ++ post) ++ nl ++ [])
      by (by rewrite app_nil_r, <- !app_assoc).
    rewrite splitlines_go_line; [done|].
    rewrite !Forall_app. split_and!.
    - eapply Forall_impl; [exact Hpre|]. by intros c [_ ?].
    - apply plain_inline. eapply Forall_impl; [exact Hc|]. apply cidr_char_plain.
    - eapply Forall_impl; [exact Hpost|]. by intros c [_ ?]. }
  cbn [fmap list_fmap]. rewrite strip_padded.
  - rewrite filter_cons, decide_True; [done|].
    split; [by apply cidr_candidate|].
    apply re_match_cidr. by left.
  - eapply Forall_impl; [exact Hpre|]. by intros c [? _].
  - eapply Forall_impl; [exact Hpost|]. by intros c [? _].
  - done.
  - eapply Forall_impl; [exact Hc|]. apply cidr_char_nospace.
Qed.

Lemma padding_is_trimmed_witness :
  fetch_domestic_cidrs (Some ([32; 32] ++ lit "1.2.3.4/24" ++ [9; 32] ++ nl))
  = [lit "1.2.3.4/24"].
Proof.
  apply padding_is_trimmed; [apply sample_cidr|..];
    repeat (apply Forall_cons_2; [split; reflexivity|]); apply Forall_nil_2.
Defined.

(** ** Further properties of the two writers *)

(** X6: record [i] of the group file, counted from 0, carries the id
    [60 + i] and the name numbered [1 + i]: ids and numbers run without
    a gap. *)
Theorem group_ids_contiguous
    (cidrs : list str) (data_date : str) (fs : FS) (i : nat) (g : str) :
  Forall Grammar.cidr cidrs →
  splitlines (group_file cidrs data_date fs) !! i = Some g →
  field "id" g = Some (dec (60 + i))
  ∧ field "group_name" g = Some ([22269; 20869] ++ lit "IP-" ++ dec (1 + i)).
Proof.
  intros Hv Hg.
  destruct (group_file_records cidrs data_date fs Hv)
    as (pools & Hc & Hs & Hr & _).
  assert (Forall valid_pool pools) as Hvp by (apply valid_pools; by rewrite Hc).
  pose proof (records_ids 60 1 pools Hvp) as Hid.
  pose proof (records_names 60 1 pools Hvp) as Hname.
  rewrite <- Hr in Hid, Hname.
  apply (f_equal (λ l, l !! i)) in Hid, Hname.
  rewrite !list_lookup_fmap, Hg in Hid, Hname. cbn [fmap option_fmap option_map] in *.
  assert (i < length pools)%nat as Hi.
  { rewrite <- (records_length 60 1 pools), <- Hr. by eapply lookup_lt_Some. }
  rewrite lookup_seq_lt in Hid, Hname by done.
  cbn [fmap option_fmap option_map] in *. split; congruence.
Qed.

Lemma group_ids_contiguous_witness :
  field "id" (group_line 61 2 [lit "1.2.3.4/24"]) = Some (dec (60 + 1))
  ∧ field "group_name" (group_line 61 2 [lit "1.2.3.4/24"])
    = Some ([22269; 20869] ++ lit "IP-" ++ dec (1 + 1)).
Proof.
  apply (group_ids_contiguous (replicate 1001 (lit "1.2.3.4/24"))
           (lit "20240229") ∅ 1).
  - apply Forall_replicate, sample_cidr.
  - rewrite group_file_text. vm_compute. reflexivity.
Defined.

Lemma chunk_sizes_length n :
  length (chunk_sizes n) = ((n + 999) / 1000)%nat.
Proof.
  unfold chunk_sizes. rewrite length_app, length_replicate.
  pose proof (Nat.div_mod_eq n 1000) as Hn.
  pose proof (Nat.mod_upper_bound n 1000 ltac:(lia)) as Hr.
  destruct (Nat.eqb_spec (n mod 1000) 0) as [H0|H0]; cbn [length].
  - apply (Nat.div_unique _ _ _ 999); lia.
  - apply (Nat.div_unique _ _ _ (n mod 1000 - 1)); lia.
Qed.

Lemma total_groups_value cidrs data_date fs :
  (generate_ip_groups cidrs data_date fs).2.2 = ((length cidrs + 999) / 1000)%nat.
Proof.
  unfold generate_ip_groups. cbn [fst snd]. fold start.
  destruct (partition cidrs) as (pools & Hc & Hs & _ & Hn).
  rewrite Hn, <- (length_fmap length pools), (shape_sizes _ Hs), Hc.
  apply chunk_sizes_length.
Qed.

(** X7: for any list of strings, the number of groups returned is the
    length divided by 1000, rounded up; it is 0 for the empty list
    only. *)
Theorem total_groups_count (cidrs : list str) (data_date : str) (fs : FS) :
  (generate_ip_groups cidrs data_date fs).2.2 = ((length cidrs + 999) / 1000)%nat
  ∧ ((generate_ip_groups cidrs data_date fs).2.2 = 0%nat ↔ cidrs = []).
Proof.
  split; [apply total_groups_value|]. split.
  - apply no_groups_no_cidrs.
  - intros ->. rewrite total_groups_value. reflexivity.
Qed.

Lemma shape_slices pools i p :
  shape pools → pools !! i = Some p →
  p = take 1000 (drop (i * 1000) (concat pools)).
Proof.
  revert i. induction pools as [|q ps IH]; intros i Hs Hp; [done|].
  destruct (decide (ps = [])) as [->|Hne].
  - destruct i; [|done]. injection Hp as ->.
    destruct Hs as [Hall _]. apply Forall_cons in Hall as [Hq _].
    cbn [concat Nat.mul]. rewrite app_nil_r, drop_0, take_ge; [done|lia].
  - destruct (shape_cons _ _ Hs Hne) as [Hq Hps].
    destruct i as [|i]; cbn [concat].
    + injection Hp as ->. cbn [Nat.mul]. rewrite drop_0.
      by rewrite <- Hq, take_app_length.
    + cbn [lookup list_lookup] in Hp.
      replace (S i * 1000)%nat with (length q + i * 1000)%nat by lia.
      rewrite drop_app_add. by apply IH.
Qed.

(** X8: group [i] of the file, counted from 0, lists the CIDRs at the
    positions [1000 i] to [1000 i + 999] of the input, in their order. *)
Theorem group_members_are_slices
    (cidrs : list str) (data_date : str) (fs : FS) (i : nat) (g : str) :
  Forall Grammar.cidr cidrs →
  splitlines (group_file cidrs data_date fs) !! i = Some g →
  members g = take 1000 (drop (i * 1000) cidrs).
Proof.
  intros Hv Hg.
  destruct (group_file_records cidrs data_date fs Hv)
    as (pools & Hc & Hs & Hr & _).
  assert (Forall valid_pool pools) as Hvp by (apply valid_pools; by rewrite Hc).
  pose proof (records_members 60 1 pools Hvp (shape_nonempty _ Hs)) as Hm.
  rewrite <- Hr in Hm. apply (f_equal (λ l, l !! i)) in Hm.
  rewrite list_lookup_fmap, Hg in Hm. cbn [fmap option_fmap option_map] in Hm.
  rewrite <- Hc. by apply shape_slices.
Qed.

Lemma group_members_are_slices_witness :
  members (group_line 61 2 [lit "5.6.7.8/9"])
  = take 1000 (drop (1 * 1000)
                 (replicate 1000 (lit "1.2.3.4/24") ++ [lit "5.6.7.8/9"])).
Proof.
  apply (group_members_are_slices
           (replicate 1000 (lit "1.2.3.4/24") ++ [lit "5.6.7.8/9"])
           (lit "20240229") ∅ 1).
  - apply Forall_app. split; [apply Forall_replicate, sample_cidr|].
    apply Forall_singleton, validated; vm_compute; reflexivity.
  - rewrite group_file_text. vm_compute. reflexivity.
Defined.

(** X9: a second run on the same date replaces what the first wrote:
    the files are as if the first run had not taken place. *)
Theorem rerun_replaces
    (cidrs1 cidrs2 : list str) (n1 n2 : nat) (data_date : str) (fs : FS) :
  (generate_ip_groups cidrs2 data_date
     (generate_ip_groups cidrs1 data_date fs).1).1
  = (generate_ip_groups cidrs2 data_date fs).1
  ∧ (generate_acl_rules n2 data_date
       (generate_acl_rules n1 data_date fs).1).1
    = (generate_acl_rules n2 data_date fs).1.
Proof.
  unfold generate_ip_groups, generate_acl_rules, write_file, remove, path_exists.
  cbn [fst snd]. split.
  - apply map_eq. intros k.
    repeat case_bool_decide;
      destruct (decide (k = lit "domestic_ikuai_ipgroup-" ++ data_date ++ lit ".txt"))
        as [->|Hk]; simplify_map_eq; try done;
      match goal with H : ¬ is_Some _ |- _ => exfalso; apply H; by simplify_map_eq end.
  - apply map_eq. intros k.
    repeat case_bool_decide;
      destruct (decide (k = lit "domestic_ikuai_acl-" ++ data_date ++ lit ".txt"))
        as [->|Hk]; simplify_map_eq; try done;
      match goal with H : ¬ is_Some _ |- _ => exfalso; apply H; by simplify_map_eq end.
Qed.

Lemma file_names_differ (date1 date2 : list N) :
  lit "domestic_ikuai_ipgroup-" ++ date1 ++ lit ".txt"
  ≠ lit "domestic_ikuai_acl-" ++ date2 ++ lit ".txt".
Proof. intros H. vm_compute in H. discriminate H. Qed.

(** X10: the two writers never touch each other's file, whatever the
    dates: writing the ACL rule leaves every group file as it was, and
    writing the groups leaves every ACL file as it was. *)
Theorem writers_do_not_collide
    (cidrs : list str) (n : nat) (date1 date2 : str) (fs : FS) :
  (generate_ip_groups cidrs date1 fs).2.1 ≠ (generate_acl_rules n date2 fs).2
  ∧ (generate_acl_rules n date2 fs).1
      !! (lit "domestic_ikuai_ipgroup-" ++ date1 ++ lit ".txt")
    = fs !! (lit "domestic_ikuai_ipgroup-" ++ date1 ++ lit ".txt")
  ∧ (generate_ip_groups cidrs date1 fs).1
      !! (lit "domestic_ikuai_acl-" ++ date2 ++ lit ".txt")
    = fs !! (lit "domestic_ikuai_acl-" ++ date2 ++ lit ".txt").
Proof.
  pose proof (file_names_differ date1 date2) as Hne.
  unfold generate_ip_groups, generate_acl_rules, write_file, remove, path_exists.
  cbn [fst snd]. split_and!; [done|..];
    rewrite lookup_insert_ne by done;
    case_bool_decide; by rewrite ?lookup_delete_ne.
Qed.

(** ** Further properties of the run *)

(** X11: with a run date and at least one valid CIDR, [main] completes:
    it returns the two file names, the number of CIDRs and the number
    of groups; both files then hold what the two writers produce, every
    other file is as before, and the [src_addr] field of the ACL rule
    lists, in order, the [group_name] fields of the group file of the
    same run. *)
Theorem main_completes
    (utcnow : datetime) (data_date : str) (response : option str) (fs : FS) :
  get_data_date utcnow = Some data_date →
  fetch_domestic_cidrs response ≠ [] →
  let cidrs := fetch_domestic_cidrs response in
  let group_filename := lit "domestic_ikuai_ipgroup-" ++ data_date ++ lit ".txt" in
  let acl_filename := lit "domestic_ikuai_acl-" ++ data_date ++ lit ".txt" in
  let num_groups := ((length cidrs + 999) / 1000)%nat in
  ∃ fs',
    main utcnow response fs
    = Some (fs', Completed group_filename acl_filename (length cidrs) num_groups)
    ∧ fs' !! group_filename = Some (group_file cidrs data_date fs)
    ∧ fs' !! acl_filename = Some (acl_file num_groups data_date fs)
    ∧ (∀ path, path ≠ group_filename → path ≠ acl_filename →
         fs' !! path = fs !! path)
    ∧ ∃ rule src_addr,
        splitlines (acl_file num_groups data_date fs) = [rule]
        ∧ field "src_addr" rule = Some src_addr
        ∧ Some <$> split (ch ",") src_addr
          = field "group_name" <$> splitlines (group_file cidrs data_date fs).
Proof.
  intros Hd Hne cidrs group_filename acl_filename num_groups.
  pose proof (fetch_valid response) as Hv. fold cidrs in Hv, Hne.
  pose proof (total_groups_value cidrs data_date fs) as Hn. fold num_groups in Hn.
  assert (num_groups ≠ 0%nat) as Hn0.
  { intros H0. rewrite H0 in Hn. by apply no_groups_no_cidrs in Hn. }
  pose proof (file_names_differ data_date data_date) as Hdiff.
  fold group_filename acl_filename in Hdiff.
  exists (generate_acl_rules num_groups data_date
            (generate_ip_groups cidrs data_date fs).1).1.
  split_and!.
  - unfold main. rewrite Hd. cbn [mbind option_bind]. fold cidrs.
    destruct cidrs as [|c cs] eqn:Hcs; [done|]. rewrite <- Hcs in *.
    destruct (generate_ip_groups cidrs data_date fs) as [fs1 [gf n]] eqn:Hg.
    cbn [fst snd] in *. subst n.
    destruct (Nat.eqb_spec num_groups 0); [done|].
    assert (gf = group_filename) as ->.
    { apply (f_equal (λ r, r.2.1)) in Hg. by cbn in Hg. }
    assert ((generate_acl_rules num_groups data_date fs1).2 = acl_filename)
      as Ha by done.
    destruct (generate_acl_rules num_groups data_date fs1) as [fs2 af].
    cbn [fst snd] in *. by subst af.
  - rewrite group_file_text.
    unfold generate_acl_rules, generate_ip_groups, write_file, remove, path_exists.
    cbn [fst snd]. fold group_filename acl_filename start.
    rewrite lookup_insert_ne by done.
    case_bool_decide; rewrite ?lookup_delete_ne by done; by rewrite lookup_insert_eq.
  - rewrite acl_file_text.
    unfold generate_acl_rules, write_file. cbn [fst snd].
    fold acl_filename. rewrite lookup_insert_eq.
    f_equal; unfold acl_record, names; by rewrite <- ?app_assoc.
  - intros path Hp1 Hp2.
    unfold generate_acl_rules, generate_ip_groups, write_file, remove, path_exists.
    cbn [fst snd]. fold group_filename acl_filename.
    rewrite lookup_insert_ne by done.
    case_bool_decide; rewrite ?lookup_delete_ne by done;
      rewrite lookup_insert_ne by done;
      case_bool_decide; by rewrite ?lookup_delete_ne by done.
  - exists (acl_record num_groups), (join (lit ",") (names num_groups)).
    split_and!; [apply acl_file_lines|apply acl_record_fields|].
    rewrite names_split by lia.
    destruct (group_file_records cidrs data_date fs Hv)
      as (pools & Hc & Hs & Hr & Hlen).
    rewrite Hr, records_names by (apply valid_pools; by rewrite Hc).
    rewrite <- Hlen, Hn. unfold names. by rewrite <- list_fmap_compose.
Qed.

Lemma main_completes_witness :
  ∃ fs',
    main (DateTime 2024 2 28 12 0 0 0)
         (Some (lit "# list" ++ nl ++ lit "1.2.3.4/24" ++ nl ++ lit "bad" ++ nl)) ∅
    = Some (fs', Completed (lit "domestic_ikuai_ipgroup-" ++ lit "20240229" ++ lit ".txt")
                           (lit "domestic_ikuai_acl-" ++ lit "20240229" ++ lit ".txt")
                           1 1).
Proof.
  destruct (main_completes (DateTime 2024 2 28 12 0 0 0) (lit "20240229")
              (Some (lit "# list" ++ nl ++ lit "1.2.3.4/24" ++ nl ++ lit "bad" ++ nl))
              ∅) as (fs' & Hm & _).
  - vm_compute. reflexivity.
  - vm_compute. discriminate.
  - exists fs'. exact Hm.
Defined.

(** X12: [main] never ends on the "no group" exit: a list with a CIDR in
    it always makes a group, so the test of line 139 never holds. *)
Theorem main_never_without_groups
    (utcnow : datetime) (response : option str) (fs fs' : FS) :
  main utcnow response fs ≠ Some (fs', NoGroups).
Proof.
  unfold main. destruct (get_data_date utcnow) as [data_date|]; [|done].
  cbn [mbind option_bind].
  destruct (fetch_domestic_cidrs response) as [|c cs] eqn:Hcs; [done|].
  pose proof (no_groups_no_cidrs (c :: cs) data_date fs) as H0.
  destruct (generate_ip_groups (c :: cs) data_date fs) as [fs1 [gf n]].
  cbn [fst snd] in H0.
  destruct (Nat.eqb_spec n 0) as [->|_]; [by specialize (H0 eq_refl)|].
  by destruct (generate_acl_rules n data_date fs1).
Qed.

(** ** Further properties of the run date *)

Section MoreDates.

Local Open Scope Z_scope.

Lemma get_data_date_last_day t :
  valid_datetime t → (year t, month t, day t) = (9999, 12, 31) →
  get_data_date t = None.
Proof.
  intros (_ & Hh & Hmi & Hs & Hus) [= Hy Hm Hd].
  unfold get_data_date, datetime_add. cbv zeta.
  rewrite (add_one_day _ _ _ _ _ Hh Hmi Hs Hus). unfold toordinal.
  rewrite Hy, Hm, Hd. reflexivity.
Qed.

Lemma tomorrow_year t y m d :
  valid_datetime t → (year t, month t, day t) ≠ (9999, 12, 31) →
  tomorrow (year t) (month t) (day t) = (y, m, d) → y ≤ 9999.
Proof.
  intros ((Hyr & Hmo & Hda) & _) Hmax. unfold tomorrow.
  repeat case_decide; intros [= <- <- <-]; try lia.
  destruct (decide (year t = 9999)); [|lia].
  exfalso. apply Hmax.
  assert (month t = 12) as Hm12 by lia. rewrite Hm12 in *.
  change (month_length (year t) 12) with 31 in *.
  f_equal; [f_equal|]; lia.
Qed.

Lemma get_data_date_next t y m d :
  valid_datetime t → (year t, month t, day t) ≠ (9999, 12, 31) →
  tomorrow (year t) (month t) (day t) = (y, m, d) →
  get_data_date t = Some (strftime_Ymd (DateTime y m d 0 0 0 0)).
Proof.
  intros Hv Hmax Ht.
  destruct (datetime_add_one_day t y m d Hv Ht (tomorrow_year _ _ _ _ Hv Hmax Ht))
    as (h & mi & s & us & Hadd).
  unfold get_data_date. by rewrite Hadd.
Qed.

(** X13: on 31 December 9999 there is no next day: [get_data_date]
    raises, at any time of that day, and [main], which calls it first,
    ends there whatever the request yields, with no file written. *)
Theorem run_date_overflow (utcnow : datetime) :
  valid_datetime utcnow →
  (year utcnow, month utcnow, day utcnow) = (9999, 12, 31) →
  get_data_date utcnow = None
  ∧ ∀ response fs, main utcnow response fs = None.
Proof.
  intros Hv Hmax. pose proof (get_data_date_last_day utcnow Hv Hmax) as Hd.
  split; [done|]. intros response fs. unfold main. by rewrite Hd.
Qed.

Lemma run_date_overflow_witness :
  get_data_date (DateTime 9999 12 31 8 30 0 0) = None
  ∧ ∀ response fs, main (DateTime 9999 12 31 8 30 0 0) response fs = None.
Proof.
  apply run_date_overflow; [vm_compute; intuition discriminate|reflexivity].
Defined.

(** X14: the run date depends on the day of the reading only, not on
    its time: two readings of the same day give the same token. *)
Theorem run_date_ignores_time (t u : datetime) :
  valid_datetime t → valid_datetime u →
  (year t, month t, day t) = (year u, month u, day u) →
  get_data_date t = get_data_date u.
Proof.
  intros Ht Hu Hsame.
  destruct (decide ((year t, month t, day t) = (9999, 12, 31))) as [Hmax|Hmax].
  - rewrite (get_data_date_last_day t Ht Hmax).
    rewrite Hsame in Hmax. by rewrite (get_data_date_last_day u Hu Hmax).
  - destruct (tomorrow (year t) (month t) (day t)) as [[y m] d] eqn:Hn.
    rewrite (get_data_date_next t y m d Ht Hmax Hn).
    injection Hsame as Hy Hm Hd. rewrite Hy, Hm, Hd in Hn, Hmax.
    by rewrite (get_data_date_next u y m d Hu Hmax Hn).
Qed.

Lemma run_date_ignores_time_witness :
  get_data_date (DateTime 2024 12 31 0 0 0 0)
  = get_data_date (DateTime 2024 12 31 23 59 59 999999).
Proof.
  apply run_date_ignores_time; [vm_compute; intuition discriminate..|reflexivity].
Defined.

End MoreDates.
